(** * AnacondaWizard: navigation and confirmation logic of the installer wizard

    A shallow embedding of [ui/webui/src/components/AnacondaWizard.jsx]:
    the step descriptors built on every render, the flattening of the step
    tree, the navigation guards, the step-change handler of the wizard, the
    click handlers of the footer and of the quit dialog, and the effect
    that resets [reusePartitioning]. *)

From Stdlib Require Import ZArith String Ascii Bool Lia.
From stdpp Require Import base option list strings gmap.

Local Open Scope string_scope.
Local Open Scope Z_scope.
Local Open Scope list_scope.
Set Warnings "-register-all".

(** ** JavaScript values *)

(** The primitive values that occur in the component's props and state. *)
Inductive JsValue :=
  | JsUndefined
  | JsNull
  | JsBool (b : bool)
  | JsNum (n : Z)
  | JsStr (s : string).

#[global] Instance JsValue_eq_dec : EqDecision JsValue.
Proof. solve_decision. Defined.

(** [v !== true] *)
Definition notStrictlyTrue (v : JsValue) : bool :=
  match v with
  | JsBool true => false
  | _ => true
  end.

(** Truthiness of a value, as tested by [!v] and [v && ...]. *)
Definition truthy (v : JsValue) : bool :=
  match v with
  | JsUndefined | JsNull => false
  | JsBool b => b
  | JsNum n => negb (n =? 0)
  | JsStr s => negb (s =? "")%string
  end.

(** A plain object with string keys, e.g. the error handed to [onFail]. *)
Abbreviation JsObject := (gmap string JsValue).

(** [{ ...base, ...ex }]: the properties of [ex] are copied over those of
    [base]; a key of [ex] replaces the same key of [base]. *)
Definition spread (base ex : JsObject) : JsObject := ex ∪ base.

(** [arr.push(x)] *)
Definition push {A} (arr : list A) (x : A) : list A := arr ++ [x].

(** [arr.findIndex(p)]: the first index whose element satisfies [p],
    or -1 when there is none. *)
Fixpoint findIndexFrom {A} (p : A → bool) (arr : list A) (i : Z) : Z :=
  match arr with
  | [] => -1
  | x :: rest => if p x then i else findIndexFrom p rest (i + 1)
  end.

Definition findIndex {A} (p : A → bool) (arr : list A) : Z :=
  findIndexFrom p arr 0.

(** [cockpit.gettext], taken in the untranslated locale, and [cockpit.noop]. *)
Definition gettext (s : string) : string := s.
Definition N_ (s : string) : string := s.

(** [cockpit.format(fmt, arg)] for one positional argument: every
    occurrence of [$0] in [fmt] is replaced by [arg]. *)
Fixpoint format (fmt : string) (arg : string) : string :=
  match fmt with
  | EmptyString => EmptyString
  | String c rest =>
      match rest with
      | String d rest' =>
          if (Ascii.eqb c "$" && Ascii.eqb d "0")%bool
          then (arg ++ format rest' arg)%string
          else String c (format rest arg)
      | EmptyString => String c EmptyString
      end
  end.

(** ** Step descriptors *)

(** The leaf screens a step can render. *)
Inductive Component :=
  | InstallationLanguage
  | InstallationMethod
  | MountPointMapping
  | DiskEncryption
  | ReviewConfiguration.

(** An entry of [stepsOrder]: either a leaf with a [component] or a group
    with child [steps].  The [data] prop bag forwarded to the component is
    rendering payload and is not represented. *)
Module Step.
Inductive t := Make {
  id : string;
  label : string;
  component : option Component;
  steps : option (list t);
  isHidden : JsValue;
  isExpandable : JsValue
}.
End Step.
Abbreviation Step := Step.t.

(** [stepsOrder], as rebuilt on every render from the props and state. *)
Definition stepsOrder (isBootIso : bool) (storageScenarioId : string) : list Step :=
  (if isBootIso
   then [ Step.Make "installation-language" (gettext "Welcome")
            (Some InstallationLanguage) None JsUndefined JsUndefined ]
   else []) ++
  [ Step.Make "installation-method" (gettext "Installation method")
      (Some InstallationMethod) None JsUndefined JsUndefined;
    Step.Make "disk-configuration" (gettext "Disk configuration")
      None
      (Some
         [ Step.Make "mount-point-mapping" (gettext "Manual disk configuration")
             (Some MountPointMapping) None
             (JsBool (negb (storageScenarioId =? "mount-point-mapping")%string))
             JsUndefined;
           Step.Make "disk-encryption" (gettext "Disk encryption")
             (Some DiskEncryption) None
             (JsBool (storageScenarioId =? "mount-point-mapping")%string)
             JsUndefined ])
      JsUndefined JsUndefined;
    Step.Make "installation-review" (gettext "Review and install")
      (Some ReviewConfiguration) None JsUndefined JsUndefined ].

(** ** Step flattener *)

(** [getFlattenedStepsIds]: the two nested [for ... of] loops, each
    threading the array [stepIds] that the body pushes to. *)
Definition getFlattenedStepsIds (steps : list Step) : list string :=
  fold_left
    (fun (stepIds : list string) (step : Step) =>
       match Step.steps step with
       | Some children =>
           fold_left
             (fun (stepIds : list string) (childStep : Step) =>
                if notStrictlyTrue (Step.isHidden childStep)
                then push stepIds (Step.id childStep)
                else stepIds)
             children stepIds
       | None => push stepIds (Step.id step)
       end)
    steps [].

(** The contract of the flattener in the words of the specification: a
    group contributes the ids of its children that are not hidden, a
    non-group node contributes its own id. *)
Definition contribution (step : Step) : list string :=
  match Step.steps step with
  | Some children =>
      Step.id <$> filter (λ c, Step.isHidden c ≠ JsBool true) children
  | None => [Step.id step]
  end.

Definition flattened_spec (steps : list Step) : list string :=
  steps ≫= contribution.

(** The ids of all descriptors of a step and of a step tree, in document
    order; the descriptors carry pairwise-distinct ids when this list has
    no duplicates. *)
Fixpoint descriptorIds (s : Step) : list string :=
  Step.id s ::
  match Step.steps s with
  | Some children => children ≫= descriptorIds
  | None => []
  end.

Definition treeIds (steps : list Step) : list string :=
  steps ≫= descriptorIds.

(** A leaf marked hidden. *)
Definition hiddenLeaf (s : Step) : Prop :=
  Step.steps s = None ∧ Step.isHidden s = JsBool true.

(** ** Navigation guard *)

Section Guard.
(** [flattenedStepsIds], the closure variable of both guards. *)
Variable flattenedStepsIds : list string.

Definition isFinishedStep (stepId : string) : bool :=
  let stepIdx := findIndex (λ s, (s =? stepId)%string) flattenedStepsIds in
  stepIdx =? Z.of_nat (length flattenedStepsIds) - 1.

Definition canJumpToStep (stepId currentStepId : string) : bool :=
  let stepIdx := findIndex (λ s, (s =? stepId)%string) flattenedStepsIds in
  let currentStepIdx :=
    findIndex (λ s, (s =? currentStepId)%string) flattenedStepsIds in
  stepIdx <=? currentStepIdx.
End Guard.

(** ** State of the wizard and of its footer *)

(** [getStorageEncryptionState()] *)
Record StorageEncryption := {
  encrypt : bool;
  password : string
}.

(** The [useState] cells of [AnacondaWizard]. *)
Record WizardState := {
  isFormValid : bool;
  stepNotification : option JsObject;
  isInProgress : bool;
  isInstallationProgress : bool;
  storageEncryption : StorageEncryption;
  storageScenarioId : string;
  reusePartitioning : bool
}.

(** The [useState] cells of [Footer]. *)
Record FooterState := {
  nextWaitsConfirmation : bool;
  quitWaitsConfirmation : bool
}.

(** Calls that leave the component, in the order they are made. *)
Inductive Call :=
  | LocationGo (path : list string)
  | OnCritFail (context : string)
  | ConsoleError (ex : JsObject)
  | ExitGui.

#[global] Instance Call_eq_dec : EqDecision Call.
Proof. solve_decision. Defined.

(** Everything a handler can read or change: the two components' state,
    the active step held by the wizard library, the path of
    [cockpit.location] and the calls made so far. *)
Record World := {
  wizard : WizardState;
  footer : FooterState;
  activeStepIndex : nat;
  location : list string;
  calls : list Call
}.

(** ** Handlers and asynchronous requests *)

(** A handler changes the world and may start asynchronous operations,
    which it returns in the order they were started. *)
Definition Act (R : Type) : Type := World → World * list R.

(** The argument object of [applyStorage]; [K] is the type of callbacks. *)
Module ApplyStorage.
Record args (K : Type) := Make {
  partitioning : option string;
  encrypt : option bool;
  encryptPassword : option string;
  onFail : JsObject → K;
  onSuccess : K
}.
Arguments Make {K}.
Arguments partitioning {K}.
Arguments encrypt {K}.
Arguments encryptPassword {K}.
Arguments onFail {K}.
Arguments onSuccess {K}.
End ApplyStorage.

(** One link of a promise chain: [.then(f, g)] or [.always(h)]. *)
Inductive Reaction (K : Type) :=
  | Then (onFulfilled : K) (onRejected : option K)
  | Always (callback : K).
Arguments Then {K}.
Arguments Always {K}.

(** An operation in flight, with the callbacks that wait for it. *)
Inductive Request :=
  | ReqApplyStorage (args : ApplyStorage.args (Act Request))
  | ReqResetPartitioning (chain : list (Reaction (Act Request))).

Abbreviation Handler := (Act Request).

Definition skip : Handler := λ w, (w, []).

Definition seq (a b : Handler) : Handler :=
  λ w, let '(w1, r1) := a w in
       let '(w2, r2) := b w1 in
       (w2, r1 ++ r2).

Declare Scope handler_scope.
Notation "a ;; b" := (seq a b)
  (at level 100, b at level 200, right associativity) : handler_scope.
Local Open Scope handler_scope.

Definition modifyWizard (f : WizardState → WizardState) : Handler :=
  λ w, ({| wizard := f (wizard w); footer := footer w;
           activeStepIndex := activeStepIndex w; location := location w;
           calls := calls w |}, []).

Definition modifyFooter (f : FooterState → FooterState) : Handler :=
  λ w, ({| wizard := wizard w; footer := f (footer w);
           activeStepIndex := activeStepIndex w; location := location w;
           calls := calls w |}, []).

Definition call (c : Call) : Handler :=
  λ w, ({| wizard := wizard w; footer := footer w;
           activeStepIndex := activeStepIndex w; location := location w;
           calls := push (calls w) c |}, []).

Definition issue (r : Request) : Handler := λ w, (w, [r]).

(** The state setters returned by [useState]. *)
Definition setIsFormValid (v : bool) : Handler :=
  modifyWizard (λ s,
    {| isFormValid := v; stepNotification := stepNotification s;
       isInProgress := isInProgress s;
       isInstallationProgress := isInstallationProgress s;
       storageEncryption := storageEncryption s;
       storageScenarioId := storageScenarioId s;
       reusePartitioning := reusePartitioning s |}).

Definition setStepNotification (v : option JsObject) : Handler :=
  modifyWizard (λ s,
    {| isFormValid := isFormValid s; stepNotification := v;
       isInProgress := isInProgress s;
       isInstallationProgress := isInstallationProgress s;
       storageEncryption := storageEncryption s;
       storageScenarioId := storageScenarioId s;
       reusePartitioning := reusePartitioning s |}).

Definition setIsInProgress (v : bool) : Handler :=
  modifyWizard (λ s,
    {| isFormValid := isFormValid s; stepNotification := stepNotification s;
       isInProgress := v;
       isInstallationProgress := isInstallationProgress s;
       storageEncryption := storageEncryption s;
       storageScenarioId := storageScenarioId s;
       reusePartitioning := reusePartitioning s |}).

Definition setNextWaitsConfirmation (v : bool) : Handler :=
  modifyFooter (λ s,
    {| nextWaitsConfirmation := v;
       quitWaitsConfirmation := quitWaitsConfirmation s |}).

Definition setQuitWaitsConfirmation (v : bool) : Handler :=
  modifyFooter (λ s,
    {| nextWaitsConfirmation := nextWaitsConfirmation s;
       quitWaitsConfirmation := v |}).

(** [cockpit.location.go(path)] *)
Definition locationGo (path : list string) : Handler :=
  λ w, ({| wizard := wizard w; footer := footer w;
           activeStepIndex := activeStepIndex w; location := path;
           calls := push (calls w) (LocationGo path) |}, []).

(** The [onCritFail] prop handed in by the hosting page, called with
    [{ context }], and [console.error]: both are recorded as calls. *)
Definition onCritFail (context : string) : Handler := call (OnCritFail context).
Definition consoleError (ex : JsObject) : Handler := call (ConsoleError ex).

(** Modelled from the spec: [exitGui] of [helpers/exit.js] is not part of
    the source; it is a parameterless external call that terminates or
    reboots, and is recorded as a call. *)
Definition exitGui : Handler := call ExitGui.

(** Modelled from the spec: [applyStorage] of [apis/storage.js] is not part
    of the source; it starts an asynchronous operation and follows a
    success/failure continuation contract: one of the two callbacks of
    [args] runs when the operation ends. *)
Definition applyStorage (args : ApplyStorage.args Handler) : Handler :=
  issue (ReqApplyStorage args).

(** Modelled from the spec: [resetPartitioning] of [apis/storage.js] is not
    part of the source; it returns a promise-like object with
    [.then(onSuccess, onFail)] and a completion hook that runs whatever
    the outcome.  [then_] and [always] extend its chain of reactions. *)
Definition resetPartitioning : list (Reaction Handler) := [].

Definition then_ (p : list (Reaction Handler)) (f g : Handler) :
  list (Reaction Handler) := push p (Then f (Some g)).

Definition always (p : list (Reaction Handler)) (h : Handler) :
  list (Reaction Handler) := push p (Always h).

(** How an operation ends. *)
Inductive Outcome :=
  | Fulfilled
  | Rejected (ex : JsObject).

(** Settling a promise chain: a [then] runs the callback that matches the
    state of the promise before it, and a rejection callback that returns
    leaves the next promise fulfilled; an [always] callback runs in both
    states and passes the state on. *)
Fixpoint settle (fulfilled : bool) (chain : list (Reaction Handler)) : Handler :=
  match chain with
  | [] => skip
  | Then f g :: rest =>
      if fulfilled then f ;; settle true rest
      else match g with
           | Some g => g ;; settle true rest
           | None => settle false rest
           end
  | Always h :: rest => h ;; settle fulfilled rest
  end.

(** The continuation of a request once its operation has ended. *)
Definition complete (r : Request) (o : Outcome) : Handler :=
  match r with
  | ReqApplyStorage args =>
      match o with
      | Fulfilled => ApplyStorage.onSuccess args
      | Rejected ex => ApplyStorage.onFail args ex
      end
  | ReqResetPartitioning chain =>
      settle (match o with Fulfilled => true | Rejected _ => false end) chain
  end.

(** ** Rendered steps *)

(** The props of a [<WizardStep>] element built by [createSteps]. *)
Module WizardStep.
Inductive t := Make {
  ariaLabel : string;
  name : string;
  id : string;
  isExpandable : bool;
  canJumpTo : bool;
  isFinishedStep : bool;
  children : option Component;
  steps : option (list t)
}.
End WizardStep.
Abbreviation WizardStep := WizardStep.t.

(** [l.filter(s => !s.isHidden).map(f)], in one pass over [l]. *)
Definition mapVisible {B} (f : Step → B) : list Step → list B :=
  fix go (l : list Step) : list B :=
    match l with
    | [] => []
    | s :: rest => if truthy (Step.isHidden s) then go rest else f s :: go rest
    end.

Section CreateSteps.
Variable title : string.
Variable flattenedStepsIds : list string.
Variable currentStepId : string.

(** The callback that [createSteps] maps over the visible descriptors. *)
Fixpoint createStep (s : Step) : WizardStep :=
  WizardStep.Make
    (title ++ " content")%string
    (Step.label s)
    (Step.id s)
    (truthy (Step.isExpandable s))
    (canJumpToStep flattenedStepsIds (Step.id s) currentStepId)
    (isFinishedStep flattenedStepsIds (Step.id s))
    (Step.component s)
    (match Step.component s with
     | Some _ => None
     | None =>
         match Step.steps s with
         | Some subSteps => Some (mapVisible createStep subSteps)
         | None => None
         end
     end).

Definition createSteps (stepsOrder : list Step) : list WizardStep :=
  mapVisible createStep stepsOrder.
End CreateSteps.

(** ** The wizard library *)

(** What [goToStep] reads from its second argument. *)
Record PrevStep := {
  prevId : JsValue;
  prevName : string
}.

(** The value of [useWizardContext()]. *)
Record WizardContext := {
  activeStep : WizardStep;
  goToNextStep : Handler;
  goToPrevStep : Handler
}.

(** The active step is state of the wizard library, set by its own
    navigation functions. *)
Definition setActiveStepIndex (i : nat) : Handler :=
  λ w, ({| wizard := wizard w; footer := footer w;
           activeStepIndex := i; location := location w;
           calls := calls w |}, []).

(** Modelled from the spec: the wizard library ([Wizard] and
    [useWizardContext] of the component library) is not part of the source.
    The steps it navigates are the rendered steps, a group standing for its
    sub-steps; the active step is the one at [activeStepIndex]; going to the
    next or previous step moves the index by one position, when there is a
    step there, and reports the change to [onStepChange] with the step that
    becomes active and the step that is left. *)
Definition navigableSteps (steps : list WizardStep) : list WizardStep :=
  mbind (λ s, match WizardStep.steps s with
              | Some subSteps => subSteps
              | None => [s]
              end) steps.

(** Modelled from the spec: what [goToStep] reads from the previous step
    that the wizard library hands to [onStepChange].  The library hands
    the step object that is left, the same kind of object as [activeStep],
    with an [id] and a [name]; it has no [prevId] and no [prevName], so
    both read as [undefined], and the name, which is only formatted into a
    message, is taken as the empty string. *)
Definition leaving (s : WizardStep) : PrevStep :=
  {| prevId := JsUndefined; prevName := "" |}.

(** Modelled from the spec: [useWizardContext()] of the wizard library,
    for the rendered [steps], the [onStepChange] prop of [<Wizard>] and
    the active index held in the world [w]. *)
Definition useWizardContext (steps : list WizardStep)
    (onStepChange : WizardStep → PrevStep → Handler) (w : World) :
    option WizardContext :=
  let nav := navigableSteps steps in
  let i := activeStepIndex w in
  match nav !! i with
  | None => None
  | Some active =>
      Some {| activeStep := active;
              goToNextStep :=
                match nav !! S i with
                | Some newStep =>
                    setActiveStepIndex (S i) ;;
                    onStepChange newStep (leaving active)
                | None => skip
                end;
              goToPrevStep :=
                match i with
                | S j =>
                    match nav !! j with
                    | Some newStep =>
                        setActiveStepIndex j ;;
                        onStepChange newStep (leaving active)
                    | None => skip
                    end
                | O => skip
                end |}
  end.

(** ** Views *)

(** What is kept of a rendered [<Button>] and of a rendered [<Modal>]. *)
Record ButtonView := {
  buttonId : string;
  isDisabled : bool;
  onClick : Handler
}.

Record ModalView := {
  modalId : string;
  actions : list ButtonView;
  onClose : Handler;
  modalTitle : string
}.

(** What is kept of the rendered footer. *)
Record FooterView := {
  reviewConfirmModal : bool;
  quitConfirmModal : option ModalView;
  nextHelperText : bool;
  actionList : list ButtonView
}.

(** Clicking the button [id] of a list of buttons runs its [onClick],
    unless the button is absent or disabled. *)
Definition click (id : string) (buttons : list ButtonView) : Handler :=
  match List.find (λ b, (buttonId b =? id)%string) buttons with
  | Some b => if isDisabled b then skip else onClick b
  | None => skip
  end.

(** ** QuitInstallationConfirmModal *)

Definition QuitInstallationConfirmModal (exitGui : Handler)
    (setQuitWaitsConfirmation : bool → Handler) (isBootIso : bool) : ModalView :=
  {| modalId := "installation-quit-confirm-dialog";
     actions :=
       [ {| buttonId := "installation-quit-confirm-btn";
            isDisabled := false;
            onClick := exitGui |};
         {| buttonId := "installation-quit-confirm-cancel-btn";
            isDisabled := false;
            onClick := setQuitWaitsConfirmation false |} ];
     onClose := setQuitWaitsConfirmation false;
     modalTitle := if isBootIso then gettext "Reboot system?"
                   else gettext "Quit installer?" |}.

(** ** Footer *)

Section Footer.
(** The props; [ws] stands for those that [AnacondaWizard] reads off its
    own state when it renders the footer, [partitioning] is
    [storageData.partitioning?.path]. *)
Variable isBootIso : bool.
Variable partitioning : option string.
Variable ws : WizardState.
(** The footer's own state and the wizard context of this render. *)
Variable fs : FooterState.
Variable ctx : WizardContext.

Definition onNext (activeStep : WizardStep) : Handler :=
  setIsFormValid true ;;
  if (WizardStep.id activeStep =? "disk-encryption")%string then
    setIsInProgress true ;;
    applyStorage
      {| ApplyStorage.partitioning := None;
         ApplyStorage.onFail := λ ex,
           consoleError ex ;;
           setIsInProgress false ;;
           setStepNotification
             (Some (spread {[ "step" := JsStr (WizardStep.id activeStep) ]} ex));
         ApplyStorage.onSuccess :=
           goToNextStep ctx ;;
           setIsInProgress false ;;
           setStepNotification None;
         ApplyStorage.encrypt := Some (encrypt (storageEncryption ws));
         ApplyStorage.encryptPassword := Some (password (storageEncryption ws)) |}
  else if (WizardStep.id activeStep =? "installation-review")%string then
    setNextWaitsConfirmation true
  else if (WizardStep.id activeStep =? "mount-point-mapping")%string then
    setIsInProgress true ;;
    applyStorage
      {| ApplyStorage.partitioning := partitioning;
         ApplyStorage.onFail := λ ex,
           consoleError ex ;;
           setIsInProgress false ;;
           setStepNotification
             (Some (spread {[ "step" := JsStr (WizardStep.id activeStep) ]} ex));
         ApplyStorage.onSuccess :=
           goToNextStep ctx ;;
           setIsInProgress false ;;
           setStepNotification None;
         ApplyStorage.encrypt := None;
         ApplyStorage.encryptPassword := None |}
  else
    goToNextStep ctx.

Definition onBack (activeStep : WizardStep) : Handler :=
  setIsFormValid true ;;
  goToPrevStep ctx.

Definition isFirstScreen : bool :=
  (WizardStep.id (activeStep ctx) =? "installation-language")%string
  || ((WizardStep.id (activeStep ctx) =? "installation-method")%string
      && negb isBootIso).

(** The rendered footer: nothing while an operation is in progress.  The
    Back button evaluates its second argument, a call of [onCritFail],
    before it calls [onBack]. *)
Definition Footer : option FooterView :=
  if isInProgress ws then None
  else
    Some
      {| reviewConfirmModal :=
           (WizardStep.id (activeStep ctx) =? "installation-review")%string
           && nextWaitsConfirmation fs;
         quitConfirmModal :=
           if quitWaitsConfirmation fs
           then Some (QuitInstallationConfirmModal exitGui
                        setQuitWaitsConfirmation isBootIso)
           else None;
         nextHelperText :=
           (WizardStep.id (activeStep ctx) =? "installation-method")%string
           && negb (isFormValid ws);
         actionList :=
           [ {| buttonId := "installation-back-btn";
                isDisabled := isFirstScreen;
                onClick :=
                  onCritFail
                    (format (N_ "Error was hit when going back from $0.")
                       (WizardStep.name (activeStep ctx))) ;;
                  onBack (activeStep ctx) |};
             {| buttonId := "installation-next-btn";
                isDisabled := negb (isFormValid ws) || nextWaitsConfirmation fs;
                onClick := onNext (activeStep ctx) |};
             {| buttonId := "installation-quit-btn";
                isDisabled := false;
                onClick := setQuitWaitsConfirmation true |} ] |}.
End Footer.

(** ** AnacondaWizard *)

Section AnacondaWizard.
(** The props that matter here; [partitioningPath] is
    [storageData.partitioning?.path]. *)
Variable isBootIso : bool.
Variable title : string.
Variable partitioningPath : option string.

(** [path[0] || fallback] *)
Definition firstOr (path : list string) (fallback : string) : string :=
  match path with
  | s :: _ => if (s =? "")%string then fallback else s
  | [] => fallback
  end.

Definition currentStepId (path : list string) : string :=
  if isBootIso then firstOr path "installation-language"
  else firstOr path "installation-method".

Definition goToStep (currentStep : WizardStep) (prevStep : PrevStep) : Handler :=
  (if bool_decide (prevId prevStep ≠ JsStr (WizardStep.id currentStep))
   then setIsFormValid false
   else skip) ;;
  if bool_decide (prevId prevStep = JsStr "installation-review")
     && negb (WizardStep.id currentStep =? "installation-progress")%string
  then
    setIsInProgress true ;;
    issue (ReqResetPartitioning
             (always
                (then_ resetPartitioning
                   (locationGo [WizardStep.id currentStep])
                   (onCritFail
                      (format (N_ "Error was hit when going back from $0.")
                         (prevName prevStep))))
                (setIsInProgress false)))
  else
    locationGo [WizardStep.id currentStep].

(** The ids and the rendered steps of one render in the world [w]. *)
Definition flattenedStepsIds (w : World) : list string :=
  getFlattenedStepsIds (stepsOrder isBootIso (storageScenarioId (wizard w))).

Definition steps (w : World) : list WizardStep :=
  createSteps title (flattenedStepsIds w) (currentStepId (location w))
    (stepsOrder isBootIso (storageScenarioId (wizard w))).

(** The footer of the rendered wizard; the wizard is replaced by the
    progress screen once [isInstallationProgress] is set. *)
Definition AnacondaWizard (w : World) : option FooterView :=
  if isInstallationProgress (wizard w) then None
  else
    match useWizardContext (steps w) goToStep w with
    | Some ctx => Footer isBootIso partitioningPath (wizard w) (footer w) ctx
    | None => None
    end.
End AnacondaWizard.

(** ** The effect that resets [reusePartitioning] *)

(** An object or array reached from the props: [Object.is] compares two of
    them by identity, here the [address], whatever their [content]. *)
Record Ref (A : Type) := MkRef {
  address : positive;
  content : A
}.
Arguments MkRef {A}.
Arguments address {A}.
Arguments content {A}.

(** The part of [storageData] that the effect depends on: [devices] is an
    object keyed by device name, [diskSelection.selectedDisks] an array. *)
Record DiskSelection := {
  selectedDisks : Ref (list string)
}.

Record StorageData := {
  devices : Ref (list (string * JsObject));
  diskSelection : DiskSelection
}.

(** [Object.keys(o)] *)
Definition objectKeys {V} (o : list (string * V)) : list string := o.*1.

(** What React keeps between two renders for the [useMemo] of
    [availableDevices] and for the [useEffect] after it: the dependencies
    of the last render, the memoised array, and the next free address for
    an array created while rendering. *)
Record Hooks := {
  availableDevicesMemo : option (positive * Ref (list string));
  reuseEffectDeps : option (positive * positive);
  nextAddress : positive
}.

Definition mount : Hooks :=
  {| availableDevicesMemo := None; reuseEffectDeps := None; nextAddress := 1 |}.

Definition setReusePartitioning (v : bool) : Handler :=
  modifyWizard (λ s,
    {| isFormValid := isFormValid s; stepNotification := stepNotification s;
       isInProgress := isInProgress s;
       isInstallationProgress := isInstallationProgress s;
       storageEncryption := storageEncryption s;
       storageScenarioId := storageScenarioId s;
       reusePartitioning := v |}).

(** [useMemo(() => Object.keys(storageData.devices), [storageData.devices])]:
    the array is created anew when there is no memoised one or when the
    dependency is another object than at the last render. *)
Definition useAvailableDevices (storageData : StorageData) (h : Hooks) :
    Ref (list string) * Hooks :=
  let fresh :=
    MkRef (nextAddress h) (objectKeys (content (devices storageData))) in
  let recomputed :=
    (fresh,
     {| availableDevicesMemo := Some (address (devices storageData), fresh);
        reuseEffectDeps := reuseEffectDeps h;
        nextAddress := Pos.succ (nextAddress h) |}) in
  match availableDevicesMemo h with
  | Some (dep, memoised) =>
      if (dep =? address (devices storageData))%positive
      then (memoised, h)
      else recomputed
  | None => recomputed
  end.

(** [useEffect(() => { setReusePartitioning(false); },
    [availableDevices, storageData.diskSelection.selectedDisks])]: the
    effect runs after the first render and after every render in which one
    of the two dependencies is another object than at the last render. *)
Definition useReusePartitioningEffect (availableDevices : Ref (list string))
    (storageData : StorageData) (h : Hooks) : Hooks * Handler :=
  let deps :=
    (address availableDevices,
     address (selectedDisks (diskSelection storageData))) in
  let stored :=
    {| availableDevicesMemo := availableDevicesMemo h;
       reuseEffectDeps := Some deps;
       nextAddress := nextAddress h |} in
  match reuseEffectDeps h with
  | Some (dep1, dep2) =>
      if ((dep1 =? deps.1) && (dep2 =? deps.2))%positive
      then (h, skip)
      else (stored, setReusePartitioning false)
  | None => (stored, setReusePartitioning false)
  end.

(** One render of [AnacondaWizard] as far as these two hooks go: the new
    hook state and the effect to run once the render is committed. *)
Definition renderHooks (storageData : StorageData) (h : Hooks) : Hooks * Handler :=
  let '(availableDevices, h1) := useAvailableDevices storageData h in
  useReusePartitioningEffect availableDevices storageData h1.

(** The hook state after the renders of a list of props, oldest first. *)
Definition rendered (history : list StorageData) : Hooks :=
  fold_left (λ h storageData, (renderHooks storageData h).1) history mount.

(** ** Invariants of the hook state *)

(** Every memoised array was created while rendering, so its address is
    below the next free one. *)
Definition hooksWf (h : Hooks) : Prop :=
  match availableDevicesMemo h with
  | Some (_, memoised) => (address memoised < nextAddress h)%positive
  | None => True
  end.

(** What React holds after a render with the props [storageData]: the
    memo depends on its [devices], the effect on the memoised array and on
    its [selectedDisks]. *)
Definition hooksAfter (storageData : StorageData) (h : Hooks) : Prop :=
  ∃ memoised,
    availableDevicesMemo h = Some (address (devices storageData), memoised)
    ∧ reuseEffectDeps h
      = Some (address memoised,
              address (selectedDisks (diskSelection storageData)))
    ∧ (address memoised < nextAddress h)%positive.

(** ** Initial state *)

(** The state of a freshly mounted wizard: [encryption] stands for
    [getStorageEncryptionState()], [scenarioId] for the id read from the
    session storage or that of the default scenario. *)
Definition initialWizardState (encryption : StorageEncryption)
    (scenarioId : string) : WizardState :=
  {| isFormValid := false; stepNotification := None; isInProgress := false;
     isInstallationProgress := false; storageEncryption := encryption;
     storageScenarioId := scenarioId; reusePartitioning := false |}.

Definition initialFooterState : FooterState :=
  {| nextWaitsConfirmation := false; quitWaitsConfirmation := false |}.

(** A world with a fresh wizard whose active step is at position [index]
    and whose location is [path]. *)
Definition worldAt (encryption : StorageEncryption) (scenarioId : string)
    (index : nat) (path : list string) : World :=
  {| wizard := initialWizardState encryption scenarioId;
     footer := initialFooterState;
     activeStepIndex := index; location := path; calls := [] |}.

(** ** What the flattener reads *)

(** The part of a step tree that [getFlattenedStepsIds] reads: of a node
    of the list its id and whether it has [steps]; of a child of a group
    its id and whether its [isHidden] is exactly [true]. *)
Definition skeleton (steps : list Step) :
    list (string * option (list (string * bool))) :=
  map
    (λ s : Step,
       (Step.id s,
        match Step.steps s with
        | Some children =>
            Some (map (λ c : Step,
                         (Step.id c, notStrictlyTrue (Step.isHidden c)))
                    children)
        | None => None
        end))
    steps.

(** Step trees on which the rendered steps and the flattened ids are
    meant to agree: no node of the list is hidden, a group has no
    component, and the [isHidden] of a child is truthy only when it is
    exactly [true]. *)
Definition agreeable (steps : list Step) : Prop :=
  Forall
    (λ s,
       truthy (Step.isHidden s) = false
       ∧ match Step.steps s with
         | Some children =>
             Step.component s = None
             ∧ Forall
                 (λ c, truthy (Step.isHidden c)
                       = negb (notStrictlyTrue (Step.isHidden c)))
                 children
         | None => True
         end)
    steps.

(** ** The scenario id and the session storage *)

(** [window.sessionStorage]: [getItem] answers [null], here [None], for a
    key that was never set. *)
Abbreviation SessionStorage := (gmap string string).

Definition getItem (key : string) (storage : SessionStorage) : option string :=
  storage !! key.

Definition setItem (key value : string) (storage : SessionStorage) :
    SessionStorage :=
  <[key := value]> storage.

(** The initial value of the [storageScenarioId] cell,
    [window.sessionStorage.getItem("storage-scenario-id") ||
    getDefaultScenario().id]; [defaultScenarioId] stands for the id of the
    default scenario of [InstallationScenario.jsx]. *)
Definition initialStorageScenarioId (defaultScenarioId : string)
    (storage : SessionStorage) : string :=
  match getItem "storage-scenario-id" storage with
  | Some stored => if (stored =? "")%string then defaultScenarioId else stored
  | None => defaultScenarioId
  end.

Definition setStorageScenarioId (v : string) : Handler :=
  modifyWizard (λ s,
    {| isFormValid := isFormValid s; stepNotification := stepNotification s;
       isInProgress := isInProgress s;
       isInstallationProgress := isInstallationProgress s;
       storageEncryption := storageEncryption s;
       storageScenarioId := v;
       reusePartitioning := reusePartitioning s |}).

(** [componentProps.setStorageScenarioId]: the id is written to the session
    storage and to the state. *)
Definition componentProps_setStorageScenarioId (scenarioId : string)
    (storage : SessionStorage) : SessionStorage * Handler :=
  (setItem "storage-scenario-id" scenarioId storage,
   setStorageScenarioId scenarioId).

(** ** The selected language *)

Section Language.
(** A locale object is used through [locale["locale-id"].v] only. *)
Variable Locale : Type.
Variable localeId : Locale → string.


End Language.

(** * Properties *)

(** Closes a decidable goal on concrete data by evaluating its decision. *)
Ltac by_decision := apply (bool_decide_unpack _); vm_compute; exact I.

(** Runs a handler on a world by evaluation, keeping the object spread. *)
Ltac run_handler := cbv -[spread singletonM]; reflexivity.

(** ** [findIndex] *)

Section FindIndex.
Context {A : Type} (p : A → bool).

(** No element satisfies [p]: the search falls off the end. *)
Lemma findIndexFrom_none (arr : list A) (i : Z) :
  (∀ x, x ∈ arr → p x = false) → findIndexFrom p arr i = -1.
Proof.
  revert i; induction arr as [|x rest IH]; intros i Hall; simpl; [done|].
  rewrite (Hall x) by left.
  apply IH; intros y Hy; apply Hall; by right.
Qed.

(** The element at [k] satisfies [p] and none before it does: the search
    stops at [k]. *)
Lemma findIndexFrom_first (arr : list A) (i : Z) (k : nat) (x : A) :
  arr !! k = Some x → p x = true →
  (∀ j y, (j < k)%nat → arr !! j = Some y → p y = false) →
  findIndexFrom p arr i = i + Z.of_nat k.
Proof.
  revert i k; induction arr as [|a rest IH]; intros i k Hk Hp Hbefore.
  - by rewrite lookup_nil in Hk.
  - destruct k as [|k]; simpl in *.
    + injection Hk as ->. rewrite Hp. lia.
    + rewrite (Hbefore 0%nat a) by (done || lia).
      rewrite (IH (i + 1) k); [lia|done|done|].
      intros j y Hj Hy. apply (Hbefore (S j) y); [lia|done].
Qed.

(** Whatever the array, the search either fails, and then no element
    satisfies [p], or stops at the first element that does. *)
Lemma findIndexFrom_cases (arr : list A) (i : Z) :
  (findIndexFrom p arr i = -1 ∧ ∀ x, x ∈ arr → p x = false)
  ∨ (∃ (k : nat) (x : A),
       findIndexFrom p arr i = i + Z.of_nat k ∧ arr !! k = Some x ∧ p x = true
       ∧ ∀ j y, (j < k)%nat → arr !! j = Some y → p y = false).
Proof.
  revert i; induction arr as [|a rest IH]; intros i; simpl.
  - left; split; [done|]. intros x Hx; by apply elem_of_nil in Hx.
  - destruct (p a) eqn:Hpa.
    + right; exists 0%nat, a. repeat split; [lia|done|]. intros; lia.
    + destruct (IH (i + 1)) as [[Hr Hall]|(k & x & Hr & Hk & Hp & Hbefore)].
      * left; split; [done|].
        intros x [->|Hx]%elem_of_cons; [done|by apply Hall].
      * right; exists (S k), x. repeat split; [lia|done|done|].
        intros [|j] y Hj Hy; simpl in Hy; [by injection Hy as <-|].
        apply (Hbefore j y); [lia|done].
Qed.

Lemma findIndex_none (arr : list A) :
  (∀ x, x ∈ arr → p x = false) → findIndex p arr = -1.
Proof. apply findIndexFrom_none. Qed.

Lemma findIndex_first (arr : list A) (k : nat) (x : A) :
  arr !! k = Some x → p x = true →
  (∀ j y, (j < k)%nat → arr !! j = Some y → p y = false) →
  findIndex p arr = Z.of_nat k.
Proof. intros. unfold findIndex. by erewrite findIndexFrom_first. Qed.

Lemma findIndex_cases (arr : list A) :
  (findIndex p arr = -1 ∧ ∀ x, x ∈ arr → p x = false)
  ∨ (∃ (k : nat) (x : A),
       findIndex p arr = Z.of_nat k ∧ arr !! k = Some x ∧ p x = true
       ∧ ∀ j y, (j < k)%nat → arr !! j = Some y → p y = false).
Proof. apply (findIndexFrom_cases arr 0). Qed.
End FindIndex.

(** The searches of the guards look for an id. *)
Lemma findIndex_id_absent (ids : list string) (stepId : string) :
  findIndex (λ s, (s =? stepId)%string) ids = -1 ↔ stepId ∉ ids.
Proof.
  split.
  - intros Hr Hin.
    destruct (findIndex_cases (λ s, (s =? stepId)%string) ids)
      as [[_ Hall]|(k & x & Hk & _)]; [|lia].
    specialize (Hall stepId Hin). simpl in Hall.
    by rewrite String.eqb_refl in Hall.
  - intros Hnin. apply findIndex_none. intros x Hx.
    apply String.eqb_neq. by intros ->.
Qed.

(** The position of the first occurrence of an id is what the search
    returns. *)
Lemma findIndex_id_first (ids : list string) (stepId : string) (k : nat) :
  ids !! k = Some stepId → stepId ∉ take k ids →
  findIndex (λ s, (s =? stepId)%string) ids = Z.of_nat k.
Proof.
  intros Hk Hfirst.
  apply findIndex_first with (x := stepId); [done|apply String.eqb_refl|].
  intros j y Hj Hy. apply String.eqb_neq. intros ->.
  apply Hfirst. apply list_elem_of_lookup. exists j.
  by rewrite lookup_take_lt.
Qed.

Lemma NoDup_first_occurrence (ids : list string) (stepId : string) (k : nat) :
  NoDup ids → ids !! k = Some stepId → stepId ∉ take k ids.
Proof.
  intros Hnd Hk [j Hj]%list_elem_of_lookup.
  assert (j < k)%nat as Hlt.
  { apply lookup_lt_Some in Hj. rewrite length_take in Hj. lia. }
  rewrite lookup_take_lt in Hj by done.
  pose proof (NoDup_lookup _ _ _ _ Hnd Hj Hk). lia.
Qed.

(** ** Navigation guard *)

(** C3. For two ids that both occur in the flattened sequence, the target
    first at position [i] and the current one first at position [j],
    [canJumpToStep] answers true exactly when [i ≤ j]; for a target at a
    strictly later position it answers false. *)
Theorem canJumpToStep_iff_index_le
    (flat : list string) (targetId currentId : string) (i j : nat) :
  flat !! i = Some targetId → targetId ∉ take i flat →
  flat !! j = Some currentId → currentId ∉ take j flat →
  (canJumpToStep flat targetId currentId = true ↔ (i ≤ j)%nat)
  ∧ ((j < i)%nat → canJumpToStep flat targetId currentId = false).
Proof.
  intros Hi Hfi Hj Hfj. unfold canJumpToStep.
  rewrite (findIndex_id_first flat targetId i Hi Hfi).
  rewrite (findIndex_id_first flat currentId j Hj Hfj).
  split.
  - rewrite Z.leb_le. lia.
  - intros Hlt. apply Z.leb_gt. lia.
Qed.

Lemma canJumpToStep_iff_index_le_witness :
  (canJumpToStep
     (getFlattenedStepsIds (stepsOrder true "use-free-space"))
     "installation-method" "installation-review" = true ↔ (1 ≤ 3)%nat)
  ∧ ((3 < 1)%nat →
     canJumpToStep
       (getFlattenedStepsIds (stepsOrder true "use-free-space"))
       "installation-method" "installation-review" = false).
Proof.
  apply (canJumpToStep_iff_index_le
           (getFlattenedStepsIds (stepsOrder true "use-free-space"))
           "installation-method" "installation-review" 1 3).
  - reflexivity.
  - by_decision.
  - reflexivity.
  - by_decision.
Defined.

(** C6. On a non-empty flattened sequence of pairwise-distinct ids,
    [isFinishedStep] answers true for the last entry and for no other id,
    absent ids included. *)
Theorem isFinishedStep_iff_last (flat : list string) (stepId : string) :
  flat ≠ [] → NoDup flat →
  (isFinishedStep flat stepId = true ↔ last flat = Some stepId).
Proof.
  intros Hne Hnd. unfold isFinishedStep.
  assert (0 < length flat)%nat as Hlen by (destruct flat; simpl; [done|lia]).
  rewrite Z.eqb_eq. split.
  - intros Hidx.
    destruct (findIndex_cases (λ s, (s =? stepId)%string) flat)
      as [[Hr _]|(k & x & Hr & Hk & Hp & _)]; [lia|].
    apply String.eqb_eq in Hp as ->.
    rewrite last_lookup.
    replace (Init.Nat.pred (length flat)) with k by lia. done.
  - intros Hlast. rewrite last_lookup in Hlast.
    rewrite (findIndex_id_first flat stepId (Init.Nat.pred (length flat)));
      [lia|done|by apply NoDup_first_occurrence].
Qed.

Lemma isFinishedStep_iff_last_witness :
  (isFinishedStep
     (getFlattenedStepsIds (stepsOrder false "mount-point-mapping"))
     "installation-review" = true)
  ↔ (last (getFlattenedStepsIds (stepsOrder false "mount-point-mapping"))
     = Some "installation-review").
Proof.
  apply (isFinishedStep_iff_last
           (getFlattenedStepsIds (stepsOrder false "mount-point-mapping"))
           "installation-review").
  - vm_compute. discriminate.
  - by_decision.
Defined.

(** C7, as the code has it.  The claim that an absent current id makes
    every target reachable fails: in a wizard that is not in boot mode the
    id "installation-language" is absent, and the jump to
    "installation-method" is refused. *)
Lemma canJumpToStep_absent_current_counterexample :
  ("installation-language"
   ∉ getFlattenedStepsIds (stepsOrder false "use-free-space"))
  ∧ findIndex (λ s, (s =? "installation-language")%string)
      (getFlattenedStepsIds (stepsOrder false "use-free-space")) = -1
  ∧ canJumpToStep (getFlattenedStepsIds (stepsOrder false "use-free-space"))
      "installation-method" "installation-language" = false.
Proof.
  split; [|split]; [|reflexivity|reflexivity].
  by_decision.
Qed.

(** C7, amended.  When the current id is absent from the flattened
    sequence, [canJumpToStep] answers true exactly for the targets that are
    absent too, and false for every target that occurs. *)
Theorem canJumpToStep_absent_current
    (flat : list string) (targetId currentId : string) :
  currentId ∉ flat →
  (canJumpToStep flat targetId currentId = true ↔ targetId ∉ flat).
Proof.
  intros Hcur. unfold canJumpToStep.
  apply findIndex_id_absent in Hcur as ->.
  rewrite <- findIndex_id_absent, Z.leb_le.
  destruct (findIndex_cases (λ s, (s =? targetId)%string) flat)
    as [[Hr _]|(k & x & Hr & _)]; lia.
Qed.

Lemma canJumpToStep_absent_current_witness :
  (canJumpToStep ["installation-method"; "installation-review"]%string
     "installation-progress" "installation-language" = true)
  ↔ ("installation-progress"
     ∉ ["installation-method"; "installation-review"]%string).
Proof.
  apply (canJumpToStep_absent_current
           ["installation-method"; "installation-review"]%string
           "installation-progress" "installation-language").
  by_decision.
Defined.

(** ** Step flattener *)

Lemma notStrictlyTrue_spec (v : JsValue) :
  notStrictlyTrue v = true ↔ v ≠ JsBool true.
Proof. destruct v as [| |[|]| |]; simpl; split; congruence. Qed.

(** The inner loop appends the ids of the children that are not hidden. *)
Lemma inner_loop_spec (children : list Step) (stepIds : list string) :
  fold_left
    (λ (stepIds : list string) (childStep : Step),
       if notStrictlyTrue (Step.isHidden childStep)
       then push stepIds (Step.id childStep)
       else stepIds)
    children stepIds
  = stepIds ++ (Step.id <$> filter (λ c, Step.isHidden c ≠ JsBool true) children).
Proof.
  revert stepIds; induction children as [|c rest IH]; intros stepIds; simpl.
  - by rewrite app_nil_r.
  - rewrite IH, filter_cons.
    destruct (notStrictlyTrue (Step.isHidden c)) eqn:Hvis.
    + apply notStrictlyTrue_spec in Hvis.
      rewrite decide_True by done. unfold push.
      by rewrite <- app_assoc.
    + rewrite decide_False; [done|].
      intros Hv%notStrictlyTrue_spec. congruence.
Qed.

(** The outer loop appends the contribution of every step. *)
Lemma outer_loop_spec (steps : list Step) (stepIds : list string) :
  fold_left
    (λ (stepIds : list string) (step : Step),
       match Step.steps step with
       | Some children =>
           fold_left
             (λ (stepIds : list string) (childStep : Step),
                if notStrictlyTrue (Step.isHidden childStep)
                then push stepIds (Step.id childStep)
                else stepIds)
             children stepIds
       | None => push stepIds (Step.id step)
       end)
    steps stepIds
  = stepIds ++ flattened_spec steps.
Proof.
  revert stepIds; induction steps as [|s rest IH]; intros stepIds.
  - simpl. by rewrite app_nil_r.
  - cbn [fold_left]. rewrite IH.
    change (flattened_spec (s :: rest))
      with (contribution s ++ flattened_spec rest).
    rewrite app_assoc. f_equal. unfold contribution.
    destruct (Step.steps s) as [children|]; [apply inner_loop_spec|done].
Qed.

Lemma getFlattenedStepsIds_flattened_spec (steps : list Step) :
  getFlattenedStepsIds steps = flattened_spec steps.
Proof. apply (outer_loop_spec steps []). Qed.

(** The ids of the children of a group are among its descriptor ids, in
    the same order. *)
Lemma children_ids_sublist (children : list Step) :
  (Step.id <$> children) `sublist_of` (children ≫= descriptorIds).
Proof.
  induction children as [|c rest IH]; [done|].
  rewrite fmap_cons, bind_cons.
  destruct c as [cid clabel ccomp csteps chid cexp]; simpl.
  apply sublist_skip. by apply sublist_inserts_l.
Qed.

Lemma contribution_sublist (s : Step) :
  contribution s `sublist_of` descriptorIds s.
Proof.
  unfold contribution.
  destruct s as [sid slabel scomp [children|] shid sexp]; simpl.
  - apply sublist_cons. etrans; [|apply children_ids_sublist].
    apply fmap_sublist, sublist_filter.
  - done.
Qed.

Lemma flattened_spec_sublist (steps : list Step) :
  flattened_spec steps `sublist_of` treeIds steps.
Proof.
  unfold flattened_spec, treeIds.
  induction steps as [|s rest IH]; [done|].
  rewrite !bind_cons. apply sublist_app; [apply contribution_sublist|done].
Qed.

(** Two elements of a list whose images under [f] have no duplicates are
    equal as soon as their images are. *)
Lemma NoDup_fmap_elem_inj {A B} (f : A → B) (l : list A) (x y : A) :
  NoDup (f <$> l) → x ∈ l → y ∈ l → f x = f y → x = y.
Proof.
  intros Hnd [i Hi]%list_elem_of_lookup [j Hj]%list_elem_of_lookup Heq.
  assert (i = j) as ->; [|congruence].
  apply (NoDup_lookup (f <$> l) i j (f x)); [done| |].
  - by rewrite list_lookup_fmap, Hi.
  - by rewrite list_lookup_fmap, Hj, Heq.
Qed.

(** A hidden child of a group of a tree with pairwise-distinct ids is not
    in the flattened sequence. *)
Lemma hidden_child_excluded (steps : list Step) (group child : Step)
    (children : list Step) :
  NoDup (treeIds steps) →
  group ∈ steps → Step.steps group = Some children → child ∈ children →
  Step.isHidden child = JsBool true →
  Step.id child ∉ flattened_spec steps.
Proof.
  unfold flattened_spec, treeIds.
  induction steps as [|s rest IH]; intros Hnd Hg Hsteps Hc Hhid.
  - by apply elem_of_nil in Hg.
  - rewrite bind_cons in Hnd |- *.
    apply NoDup_app in Hnd as (Hs & Hdisj & Hrest).
    assert (Step.id child ∈ descriptorIds group) as Hcg.
    { destruct group as [gid glabel gcomp gsteps ghid gexp]; simpl in *.
      subst gsteps. right.
      eapply elem_of_sublist; [|apply children_ids_sublist].
      apply list_elem_of_fmap. by exists child. }
    intros [Hin|Hin]%elem_of_app.
    + (* the id would be contributed by the first step *)
      apply elem_of_cons in Hg as [->|Hg].
      * unfold contribution in Hin. rewrite Hsteps in Hin.
        apply list_elem_of_fmap in Hin as (c' & Hid & Hc').
        apply list_elem_of_filter in Hc' as [Hvis Hc'].
        assert (NoDup (Step.id <$> children)) as Hch.
        { destruct s as [sid slabel scomp ssteps shid sexp]; simpl in *.
          subst ssteps. apply NoDup_cons in Hs as [_ Hs].
          eapply sublist_NoDup; [exact Hs|apply children_ids_sublist]. }
        assert (child = c') as -> by
          (by apply (NoDup_fmap_elem_inj Step.id children)).
        done.
      * apply (Hdisj (Step.id child)).
        -- eapply elem_of_sublist; [exact Hin|apply contribution_sublist].
        -- apply list_elem_of_bind. by exists group.
    + (* the id would be contributed by a later step *)
      apply elem_of_cons in Hg as [->|Hg].
      * apply (Hdisj (Step.id child) Hcg).
        eapply elem_of_sublist; [exact Hin|].
        apply (flattened_spec_sublist rest).
      * by apply IH.
Qed.

(** In a tree with pairwise-distinct ids a group of the list does not
    contribute its own id. *)
Lemma group_id_excluded (steps : list Step) (group : Step)
    (children : list Step) :
  NoDup (treeIds steps) →
  group ∈ steps → Step.steps group = Some children →
  Step.id group ∉ flattened_spec steps.
Proof.
  unfold flattened_spec, treeIds.
  induction steps as [|s rest IH]; intros Hnd Hg Hsteps.
  - by apply elem_of_nil in Hg.
  - rewrite bind_cons in Hnd |- *.
    apply NoDup_app in Hnd as (Hs & Hdisj & Hrest).
    assert (Step.id group ∈ descriptorIds group) as Hgg.
    { destruct group; simpl. by left. }
    intros [Hin|Hin]%elem_of_app.
    + apply elem_of_cons in Hg as [Heq|Hg].
      * subst s. unfold contribution in Hin. rewrite Hsteps in Hin.
        destruct group as [sid slabel scomp ssteps shid sexp]; simpl in *.
        subst ssteps. apply NoDup_cons in Hs as [Hfresh _].
        apply Hfresh.
        eapply elem_of_sublist; [exact Hin|].
        etrans; [|apply children_ids_sublist].
        apply fmap_sublist, sublist_filter.
      * apply (Hdisj (Step.id group)).
        -- eapply elem_of_sublist; [exact Hin|apply contribution_sublist].
        -- apply list_elem_of_bind. by exists group.
    + apply elem_of_cons in Hg as [Heq|Hg].
      * subst s. apply (Hdisj (Step.id group) Hgg).
        eapply elem_of_sublist; [exact Hin|].
        apply (flattened_spec_sublist rest).
      * by apply IH.
Qed.

(** A non-group node of the list contributes its id, hidden or not. *)
Lemma leaf_id_included (steps : list Step) (s : Step) :
  s ∈ steps → Step.steps s = None → Step.id s ∈ flattened_spec steps.
Proof.
  intros Hs Hleaf. unfold flattened_spec. apply list_elem_of_bind.
  exists s. split; [|done]. unfold contribution. rewrite Hleaf. by left.
Qed.

(** C4, as the code has it.  The claim that the flattened sequence
    excludes every hidden leaf fails for a leaf at the top level, whose id
    is pushed whatever its [isHidden]. *)
Lemma getFlattenedStepsIds_hidden_leaf_counterexample :
  let welcome :=
    Step.Make "installation-language" "Welcome" (Some InstallationLanguage)
      None (JsBool true) JsUndefined in
  let method :=
    Step.Make "installation-method" "Installation method"
      (Some InstallationMethod) None JsUndefined JsUndefined in
  NoDup (treeIds [welcome; method])
  ∧ hiddenLeaf welcome
  ∧ Step.id welcome ∈ getFlattenedStepsIds [welcome; method].
Proof.
  split; [|split].
  - by_decision.
  - by split.
  - by_decision.
Qed.

(** C4, amended.  [getFlattenedStepsIds] returns, in document order, for
    each group of the list the ids of its children whose [isHidden] is not
    exactly [true] and for each non-group node of the list its own id,
    whatever its [isHidden]; in a tree with pairwise-distinct ids the
    result has no duplicates and contains neither the id of a group of the
    list nor that of a hidden child of such a group. *)
Theorem getFlattenedStepsIds_contract (steps : list Step) :
  getFlattenedStepsIds steps = flattened_spec steps
  ∧ (∀ s, s ∈ steps → Step.steps s = None →
          Step.id s ∈ getFlattenedStepsIds steps)
  ∧ (NoDup (treeIds steps) →
     NoDup (getFlattenedStepsIds steps)
     ∧ (∀ group children,
          group ∈ steps → Step.steps group = Some children →
          Step.id group ∉ getFlattenedStepsIds steps)
     ∧ (∀ group children child,
          group ∈ steps → Step.steps group = Some children →
          child ∈ children → Step.isHidden child = JsBool true →
          Step.id child ∉ getFlattenedStepsIds steps)).
Proof.
  rewrite getFlattenedStepsIds_flattened_spec.
  split; [done|]. split; [apply leaf_id_included|].
  intros Hnd. split; [|split].
  - eapply sublist_NoDup; [exact Hnd|apply flattened_spec_sublist].
  - intros group children. by apply group_id_excluded.
  - intros group children child. by apply hidden_child_excluded.
Qed.

Lemma getFlattenedStepsIds_contract_witness :
  NoDup (treeIds (stepsOrder true "mount-point-mapping"))
  ∧ getFlattenedStepsIds (stepsOrder true "mount-point-mapping")
    = flattened_spec (stepsOrder true "mount-point-mapping")
  ∧ NoDup (getFlattenedStepsIds (stepsOrder true "mount-point-mapping"))
  ∧ ("disk-configuration"
     ∉ getFlattenedStepsIds (stepsOrder true "mount-point-mapping"))
  ∧ ("disk-encryption"
     ∉ getFlattenedStepsIds (stepsOrder true "mount-point-mapping")).
Proof.
  assert (NoDup (treeIds (stepsOrder true "mount-point-mapping"))) as Hnd
    by by_decision.
  destruct (getFlattenedStepsIds_contract
              (stepsOrder true "mount-point-mapping")) as (Heq & _ & Hrest).
  destruct (Hrest Hnd) as (Hflat & Hgroup & Hhidden).
  split; [exact Hnd|]. split; [exact Heq|]. split; [exact Hflat|]. split.
  - eapply (Hgroup
              (Step.Make "disk-configuration" (gettext "Disk configuration")
                 None _ JsUndefined JsUndefined)).
    + do 2 right. left.
    + reflexivity.
  - eapply (Hhidden
              (Step.Make "disk-configuration" (gettext "Disk configuration")
                 None _ JsUndefined JsUndefined)
              _
              (Step.Make "disk-encryption" (gettext "Disk encryption")
                 (Some DiskEncryption) None (JsBool true) JsUndefined)).
    + do 2 right. left.
    + reflexivity.
    + right. left.
    + reflexivity.
Defined.

(** ** Step definition builder *)

(** C5. Whatever the scenario, the disk-configuration group of
    [stepsOrder] has the two children mount-point-mapping and
    disk-encryption; the first is hidden exactly when the scenario is not
    "mount-point-mapping", the second exactly when it is, so exactly one
    of the two is visible. *)
Theorem stepsOrder_disk_configuration (isBootIso : bool) (storageScenarioId : string) :
  ∃ group mountPointMapping diskEncryption,
    group ∈ stepsOrder isBootIso storageScenarioId
    ∧ Step.id group = "disk-configuration"
    ∧ Step.steps group = Some [mountPointMapping; diskEncryption]
    ∧ Step.id mountPointMapping = "mount-point-mapping"
    ∧ Step.id diskEncryption = "disk-encryption"
    ∧ (Step.isHidden mountPointMapping = JsBool true
       ↔ storageScenarioId ≠ "mount-point-mapping")
    ∧ (Step.isHidden diskEncryption = JsBool true
       ↔ storageScenarioId = "mount-point-mapping")
    ∧ (∃ b, Step.isHidden mountPointMapping = JsBool (negb b)
            ∧ Step.isHidden diskEncryption = JsBool b)
    ∧ (Step.id <$> filter (λ c, Step.isHidden c ≠ JsBool true)
                     [mountPointMapping; diskEncryption]
       = if (storageScenarioId =? "mount-point-mapping")%string
         then ["mount-point-mapping"] else ["disk-encryption"]).
Proof.
  eexists _, _, _. split.
  { unfold stepsOrder. apply elem_of_app. right. right. left. }
  simpl. repeat split.
  - intros [=Hneg] ->. by rewrite String.eqb_refl in Hneg.
  - intros Hne%String.eqb_neq. by rewrite Hne.
  - intros [=Heq]. by apply String.eqb_eq.
  - intros ->. by rewrite String.eqb_refl.
  - by eexists.
  - destruct (storageScenarioId =? "mount-point-mapping")%string; reflexivity.
Qed.

(** ** Quit confirmation *)

(** C9. In a rendered footer, clicking the quit button sets
    [quitWaitsConfirmation] and calls nothing; the footer then shows the
    quit dialog, whose cancel button clears the flag without calling
    [exitGui] and whose confirm button calls [exitGui] exactly once. *)
Theorem quit_button_flow (isBootIso : bool) (partitioning : option string)
    (ws : WizardState) (ctx : WizardContext) (w : World) (view : FooterView) :
  Footer isBootIso partitioning ws (footer w) ctx = Some view →
  ∃ w1 view1 modal,
    click "installation-quit-btn" (actionList view) w = (w1, [])
    ∧ quitWaitsConfirmation (footer w1) = true
    ∧ calls w1 = calls w
    ∧ Footer isBootIso partitioning ws (footer w1) ctx = Some view1
    ∧ quitConfirmModal view1 = Some modal
    ∧ (∃ w2,
         click "installation-quit-confirm-cancel-btn" (actions modal) w1
         = (w2, [])
         ∧ quitWaitsConfirmation (footer w2) = false
         ∧ calls w2 = calls w1)
    ∧ (∃ w2,
         click "installation-quit-confirm-btn" (actions modal) w1 = (w2, [])
         ∧ calls w2 = calls w1 ++ [ExitGui]).
Proof.
  unfold Footer. intros Hview.
  destruct (isInProgress ws) eqn:Hprogress; [discriminate|].
  injection Hview as <-.
  eexists _, _, _. split; [reflexivity|]. simpl.
  split; [reflexivity|]. split; [reflexivity|].
  split; [reflexivity|]. split; [reflexivity|].
  split; eexists; (split; [reflexivity|]); simpl; auto.
Qed.

Lemma quit_button_flow_witness :
  ∃ view w1 view1 modal,
    Footer false None
      (initialWizardState {| encrypt := false; password := "" |} "use-free-space")
      initialFooterState
      {| activeStep :=
           WizardStep.Make "Anaconda content" "Installation method"
             "installation-method" false true false (Some InstallationMethod)
             None;
         goToNextStep := skip; goToPrevStep := skip |} = Some view
    ∧ click "installation-quit-btn" (actionList view)
        (worldAt {| encrypt := false; password := "" |} "use-free-space" 0 [])
      = (w1, [])
    ∧ quitWaitsConfirmation (footer w1) = true
    ∧ quitConfirmModal view1 = Some modal
    ∧ (click "installation-quit-confirm-btn" (actions modal) w1).1.(calls)
      = [ExitGui].
Proof.
  destruct (quit_button_flow false None
              (initialWizardState {| encrypt := false; password := "" |}
                 "use-free-space")
              {| activeStep :=
                   WizardStep.Make "Anaconda content" "Installation method"
                     "installation-method" false true false
                     (Some InstallationMethod) None;
                 goToNextStep := skip; goToPrevStep := skip |}
              (worldAt {| encrypt := false; password := "" |}
                 "use-free-space" 0 [])
              _ eq_refl)
    as (w1 & view1 & modal & Hclick & Hflag & Hcalls & Hview1 & Hmodal
        & _ & (w2 & Hconfirm & Hexit)).
  eexists _, w1, view1, modal.
  split; [reflexivity|]. split; [exact Hclick|]. split; [exact Hflag|].
  split; [exact Hmodal|].
  rewrite Hconfirm. simpl. rewrite Hexit, Hcalls. reflexivity.
Defined.

(** C10. The confirm button of the quit dialog calls [exitGui] and leaves
    the state of the wizard and of the footer as it is, so
    [quitWaitsConfirmation] keeps its value; the dialog has no other
    buttons than confirm and cancel, and cancel and the close handler set
    [quitWaitsConfirmation] to false. *)
Theorem quit_confirm_frame (isBootIso : bool) (w : World) :
  let modal :=
    QuitInstallationConfirmModal exitGui setQuitWaitsConfirmation isBootIso in
  buttonId <$> actions modal
  = ["installation-quit-confirm-btn"; "installation-quit-confirm-cancel-btn"]%string
  ∧ click "installation-quit-confirm-btn" (actions modal) w
    = ({| wizard := wizard w; footer := footer w;
          activeStepIndex := activeStepIndex w; location := location w;
          calls := calls w ++ [ExitGui] |}, [])
  ∧ quitWaitsConfirmation
      (footer (click "installation-quit-confirm-btn" (actions modal) w).1)
    = quitWaitsConfirmation (footer w)
  ∧ quitWaitsConfirmation
      (footer (click "installation-quit-confirm-cancel-btn" (actions modal) w).1)
    = false
  ∧ quitWaitsConfirmation (footer (onClose modal w).1) = false.
Proof. repeat split. Qed.

(** ** Going back from the review *)

(** The message of the fatal notification names the step that is left. *)
Lemma format_going_back (stepName : string) :
  format (N_ "Error was hit when going back from $0.") stepName
  = ("Error was hit when going back from " ++ stepName ++ ".")%string.
Proof. reflexivity. Qed.

(** The reset branch of [goToStep], taken when [prevStep.prevId] is
    "installation-review" and the new step is not the progress view:
    [isInProgress] is set and [resetPartitioning] started without
    navigating; the wizard navigates when the operation succeeds, reports
    a fatal error naming [prevStep.prevName] and does not navigate when it
    fails, and clears [isInProgress] in both cases. *)
Lemma goToStep_reset_branch
    (currentStep : WizardStep) (prevStep : PrevStep) (w : World) :
  prevId prevStep = JsStr "installation-review" →
  WizardStep.id currentStep ≠ "installation-progress" →
  ∃ w1 chain,
    goToStep currentStep prevStep w = (w1, [ReqResetPartitioning chain])
    ∧ isInProgress (wizard w1) = true
    ∧ location w1 = location w
    ∧ calls w1 = calls w
    ∧ (∀ w', ∃ w2,
         complete (ReqResetPartitioning chain) Fulfilled w' = (w2, [])
         ∧ location w2 = [WizardStep.id currentStep]
         ∧ calls w2 = calls w' ++ [LocationGo [WizardStep.id currentStep]]
         ∧ isInProgress (wizard w2) = false)
    ∧ (∀ ex w', ∃ w2,
         complete (ReqResetPartitioning chain) (Rejected ex) w' = (w2, [])
         ∧ location w2 = location w'
         ∧ calls w2
           = calls w'
             ++ [OnCritFail
                   ("Error was hit when going back from "
                    ++ prevName prevStep ++ ".")%string]
         ∧ isInProgress (wizard w2) = false).
Proof.
  intros Hprev Hcur. unfold goToStep.
  rewrite Hprev.
  rewrite (bool_decide_eq_true_2
             (JsStr "installation-review" = JsStr "installation-review"))
    by done.
  apply String.eqb_neq in Hcur. rewrite Hcur. cbn [negb andb].
  rewrite format_going_back.
  destruct (bool_decide
              (JsStr "installation-review" ≠ JsStr (WizardStep.id currentStep)));
    (eexists _, _; split; [reflexivity|]; repeat split;
     try (intros; eexists; repeat split)).
Qed.

(** C2, as the code has it.  The wizard library hands [goToStep] the step
    object that is left, which carries no [prevId]: whatever the two
    steps, the review included, [goToStep] then starts no
    [resetPartitioning], leaves [isInProgress] as it is, resets the
    validity of the form and navigates at once to the new step. *)
Theorem goToStep_back_from_review_skips_reset
    (currentStep : WizardStep) (prevStep : PrevStep) (w : World) :
  prevId prevStep = JsUndefined →
  ∃ w1,
    goToStep currentStep prevStep w = (w1, [])
    ∧ isInProgress (wizard w1) = isInProgress (wizard w)
    ∧ isFormValid (wizard w1) = false
    ∧ location w1 = [WizardStep.id currentStep]
    ∧ calls w1 = calls w ++ [LocationGo [WizardStep.id currentStep]].
Proof.
  intros Hprev. unfold goToStep. rewrite Hprev.
  rewrite (bool_decide_eq_true_2
             (JsUndefined ≠ JsStr (WizardStep.id currentStep))) by done.
  rewrite (bool_decide_eq_false_2
             (JsUndefined = JsStr "installation-review")) by done.
  cbn [andb]. eexists. split; [reflexivity|]. repeat split.
Qed.

Lemma goToStep_back_from_review_skips_reset_witness :
  let review :=
    WizardStep.Make "Anaconda content" "Review and install"
      "installation-review" false true true (Some ReviewConfiguration) None in
  let diskEncryption :=
    WizardStep.Make "Anaconda content" "Disk encryption" "disk-encryption"
      false true false (Some DiskEncryption) None in
  let w :=
    worldAt {| encrypt := false; password := "" |} "use-free-space" 1
      ["installation-review"]%string in
  prevId (leaving review) = JsUndefined
  ∧ ∃ w1,
      goToStep diskEncryption (leaving review) w = (w1, [])
      ∧ isInProgress (wizard w1) = false
      ∧ location w1 = ["disk-encryption"]%string
      ∧ calls w1 = [LocationGo ["disk-encryption"]%string].
Proof.
  intros review diskEncryption w. split; [reflexivity|].
  destruct (goToStep_back_from_review_skips_reset diskEncryption
              (leaving review) w eq_refl)
    as (w1 & Hgo & Hprogress & _ & Hloc & Hcalls).
  exists w1. repeat split; assumption.
Defined.

(** ** Next on the storage steps *)

(** The steps that the wizard library navigates carry the flattened ids. *)
Lemma navigable_ids (isBootIso : bool) (title : string) (w : World) :
  WizardStep.id <$> navigableSteps (steps isBootIso title w)
  = flattenedStepsIds isBootIso w.
Proof.
  unfold steps, flattenedStepsIds.
  destruct isBootIso;
    destruct (String.eqb (storageScenarioId (wizard w)) "mount-point-mapping")
      eqn:Hs.
  all: unfold stepsOrder; rewrite Hs; reflexivity.
Qed.

(** In every flattened sequence of the wizard, the entry after
    disk-encryption or mount-point-mapping is the review. *)
Lemma flattened_after_storage_step
    (isBootIso : bool) (scenarioId stepId : string) (i : nat) :
  getFlattenedStepsIds (stepsOrder isBootIso scenarioId) !! i = Some stepId →
  stepId = "disk-encryption" ∨ stepId = "mount-point-mapping" →
  getFlattenedStepsIds (stepsOrder isBootIso scenarioId) !! S i
  = Some "installation-review".
Proof.
  unfold stepsOrder.
  destruct isBootIso; destruct (String.eqb scenarioId "mount-point-mapping");
    destruct i as [|[|[|[|i]]]]; cbn; intros [= <-] [|]; done.
Qed.

(** Wherever the active index points into the flattened sequence, the
    wizard library has a context whose active step carries that id. *)
Lemma useWizardContext_at (isBootIso : bool) (title : string) (w : World)
    (stepId : string) :
  flattenedStepsIds isBootIso w !! activeStepIndex w = Some stepId →
  ∃ ctx,
    useWizardContext (steps isBootIso title w) goToStep w = Some ctx
    ∧ WizardStep.id (activeStep ctx) = stepId.
Proof.
  rewrite <- (navigable_ids isBootIso title), list_lookup_fmap.
  unfold useWizardContext.
  destruct (navigableSteps (steps isBootIso title w) !! activeStepIndex w)
    as [active|]; [|discriminate].
  intros [= <-]. by eexists.
Qed.

(** A key that the error does not carry keeps the value of the literal,
    and every property of the error is copied. *)
Lemma spread_lookup_base (base ex : JsObject) (key : string) :
  ex !! key = None → spread base ex !! key = base !! key.
Proof. intros Hex. unfold spread. by rewrite lookup_union_r. Qed.

Lemma spread_lookup_ex (base ex : JsObject) (key : string) (v : JsValue) :
  ex !! key = Some v → spread base ex !! key = Some v.
Proof. intros Hex. unfold spread. by apply lookup_union_Some_l. Qed.

(** C1. On the disk-encryption and the mount-point-mapping step, [onNext]
    sets [isInProgress] and starts [applyStorage], with the encryption
    settings on the first and with the partitioning path on the second.
    When the operation fails with [ex], [isInProgress] is cleared,
    [stepNotification] is [{ step: activeStep.id, ...ex }] and the active
    step is unchanged; when it succeeds, the active step moves to the next
    position of the flattened sequence and both [isInProgress] and
    [stepNotification] are cleared. *)
Theorem onNext_applyStorage (isBootIso : bool) (title : string)
    (partitioningPath : option string) (w : World) (ctx : WizardContext) :
  useWizardContext (steps isBootIso title w) goToStep w = Some ctx →
  WizardStep.id (activeStep ctx) = "disk-encryption"
  ∨ WizardStep.id (activeStep ctx) = "mount-point-mapping" →
  ∃ args w1,
    onNext partitioningPath (wizard w) ctx (activeStep ctx) w
    = (w1, [ReqApplyStorage args])
    ∧ isInProgress (wizard w1) = true
    ∧ activeStepIndex w1 = activeStepIndex w
    ∧ (ApplyStorage.partitioning args, ApplyStorage.encrypt args,
       ApplyStorage.encryptPassword args)
      = (if (WizardStep.id (activeStep ctx) =? "disk-encryption")%string
         then (None, Some (encrypt (storageEncryption (wizard w))),
               Some (password (storageEncryption (wizard w))))
         else (partitioningPath, None, None))
    ∧ (∀ ex, ∃ w2,
         complete (ReqApplyStorage args) (Rejected ex) w1 = (w2, [])
         ∧ isInProgress (wizard w2) = false
         ∧ stepNotification (wizard w2)
           = Some (spread {[ "step" := JsStr (WizardStep.id (activeStep ctx)) ]} ex)
         ∧ activeStepIndex w2 = activeStepIndex w
         ∧ location w2 = location w)
    ∧ (∃ w2,
         complete (ReqApplyStorage args) Fulfilled w1 = (w2, [])
         ∧ isInProgress (wizard w2) = false
         ∧ stepNotification (wizard w2) = None
         ∧ activeStepIndex w2 = S (activeStepIndex w)
         ∧ flattenedStepsIds isBootIso w2 = flattenedStepsIds isBootIso w
         ∧ flattenedStepsIds isBootIso w !! activeStepIndex w
           = Some (WizardStep.id (activeStep ctx))
         ∧ ∃ ctx2,
             useWizardContext (steps isBootIso title w2) goToStep w2 = Some ctx2
             ∧ flattenedStepsIds isBootIso w !! S (activeStepIndex w)
               = Some (WizardStep.id (activeStep ctx2))).
Proof.
  intros Hctx Hid. unfold useWizardContext in Hctx.
  destruct (navigableSteps (steps isBootIso title w) !! activeStepIndex w)
    as [active|] eqn:Hactive; [|discriminate].
  (* the active step and its successor in the flattened sequence *)
  assert (flattenedStepsIds isBootIso w !! activeStepIndex w
          = Some (WizardStep.id active)) as Hflat.
  { by rewrite <- (navigable_ids isBootIso title), list_lookup_fmap, Hactive. }
  assert (WizardStep.id active = "disk-encryption"
          ∨ WizardStep.id active = "mount-point-mapping") as Hid'
    by (by injection Hctx as <-).
  pose proof (flattened_after_storage_step _ _ _ _ Hflat Hid') as Hnext.
  fold (flattenedStepsIds isBootIso w) in Hnext.
  assert (∃ newStep,
            navigableSteps (steps isBootIso title w) !! S (activeStepIndex w)
            = Some newStep
            ∧ WizardStep.id newStep = "installation-review")
    as (newStep & Hnew & HnewId).
  { rewrite <- (navigable_ids isBootIso title), list_lookup_fmap in Hnext.
    destruct (navigableSteps (steps isBootIso title w) !! S (activeStepIndex w))
      as [newStep|]; [|discriminate].
    exists newStep. split; [done|]. by injection Hnext. }
  rewrite Hnew in Hctx. injection Hctx as <-.
  cbn [activeStep goToNextStep] in *.
  unfold onNext, goToStep, leaving. cbn [activeStep goToNextStep prevId prevName].
  rewrite HnewId.
  destruct Hid' as [Hid'|Hid']; rewrite Hid' in *.
  all: eexists _, _; split; [run_handler|].
  all: split; [reflexivity|]; split; [reflexivity|]; split; [reflexivity|].
  all: split; [intros ex; eexists; split; [run_handler|]; by repeat split|].
  all: eexists; split; [run_handler|].
  all: split; [reflexivity|]; split; [reflexivity|]; split; [reflexivity|].
  all: split; [reflexivity|]; split; [exact Hflat|].
  all: match goal with
       | |- ∃ ctx2, useWizardContext (steps _ _ ?w2) _ _ = _ ∧ _ =>
           destruct (useWizardContext_at isBootIso title w2
                       "installation-review")
             as (ctx2 & Hctx2 & Hid2); [exact Hnext|]
       end.
  all: exists ctx2; split; [exact Hctx2|]; by rewrite Hid2.
Qed.

Lemma onNext_applyStorage_witness :
  let w :=
    worldAt {| encrypt := false; password := "" |} "mount-point-mapping" 1
      ["mount-point-mapping"]%string in
  ∃ ctx,
    useWizardContext (steps false "Anaconda" w) goToStep w = Some ctx
    ∧ WizardStep.id (activeStep ctx) = "mount-point-mapping"
    ∧ ∃ args w1 w2,
        onNext (Some "/org/fedoraproject/Anaconda/Modules/Storage/Partitioning/1")
          (wizard w) ctx (activeStep ctx) w
        = (w1, [ReqApplyStorage args])
        ∧ isInProgress (wizard w1) = true
        ∧ complete (ReqApplyStorage args) Fulfilled w1 = (w2, [])
        ∧ activeStepIndex w2 = 2%nat
        ∧ isInProgress (wizard w2) = false.
Proof.
  intros w. eexists. split; [reflexivity|]. split; [reflexivity|].
  destruct (onNext_applyStorage false "Anaconda"
              (Some "/org/fedoraproject/Anaconda/Modules/Storage/Partitioning/1")
              w _ eq_refl (or_intror eq_refl))
    as (args & w1 & Hnext & Hprogress & _ & _ & _ & (w2 & Hdone & Hclear & _
        & Hidx & _)).
  exists args, w1, w2. repeat split; assumption.
Defined.

(** ** Resetting [reusePartitioning] *)

Lemma hooksAfter_wf (storageData : StorageData) (h : Hooks) :
  hooksAfter storageData h → hooksWf h.
Proof. intros (memoised & Hmemo & _ & Hlt). unfold hooksWf. by rewrite Hmemo. Qed.

Lemma renderHooks_after (storageData : StorageData) (h : Hooks) :
  hooksWf h → hooksAfter storageData (renderHooks storageData h).1.
Proof.
  unfold hooksWf, hooksAfter, renderHooks, useAvailableDevices,
    useReusePartitioningEffect.
  destruct h as [[[dep memoised]|] deps next]; cbn; intros Hwf.
  - destruct (dep =? address (devices storageData))%positive eqn:Hdep.
    + apply Pos.eqb_eq in Hdep as ->. cbn.
      destruct deps as [[dep1 dep2]|]; cbn; [|by eexists].
      destruct ((dep1 =? address memoised)
                && (dep2 =? address (selectedDisks (diskSelection storageData))))%positive
        eqn:Hdeps; cbn; [|by eexists].
      apply andb_true_iff in Hdeps as [->%Pos.eqb_eq ->%Pos.eqb_eq].
      by eexists.
    + cbn. destruct deps as [[dep1 dep2]|]; cbn.
      * destruct ((dep1 =? next)
                  && (dep2 =? address (selectedDisks (diskSelection storageData))))%positive
          eqn:Hdeps; cbn.
        -- apply andb_true_iff in Hdeps as [->%Pos.eqb_eq ->%Pos.eqb_eq].
           eexists; repeat split; cbn; lia.
        -- eexists; repeat split; cbn; lia.
      * eexists; repeat split; cbn; lia.
  - destruct deps as [[dep1 dep2]|]; cbn.
    + destruct ((dep1 =? next)
                && (dep2 =? address (selectedDisks (diskSelection storageData))))%positive
        eqn:Hdeps; cbn.
      * apply andb_true_iff in Hdeps as [->%Pos.eqb_eq ->%Pos.eqb_eq].
        eexists; repeat split; cbn; lia.
      * eexists; repeat split; cbn; lia.
    + eexists; repeat split; cbn; lia.
Qed.

Lemma fold_renderHooks_wf (history : list StorageData) (h : Hooks) :
  hooksWf h →
  hooksWf (fold_left (λ h storageData, (renderHooks storageData h).1) history h).
Proof.
  revert h; induction history as [|storageData rest IH]; intros h Hwf; [done|].
  cbn [fold_left]. apply IH. eapply hooksAfter_wf. by apply renderHooks_after.
Qed.

Lemma rendered_after (history : list StorageData) (storageData : StorageData) :
  hooksAfter storageData (rendered (history ++ [storageData])).
Proof.
  unfold rendered. rewrite fold_left_app. cbn [fold_left].
  apply renderHooks_after, fold_renderHooks_wf. by cbn.
Qed.

(** After a render with [previous], a render with [current] runs the
    effect as soon as [devices] or [selectedDisks] is another object. *)
Lemma renderHooks_effect_runs (previous current : StorageData) (h : Hooks) :
  hooksAfter previous h →
  address (devices previous) ≠ address (devices current)
  ∨ address (selectedDisks (diskSelection previous))
    ≠ address (selectedDisks (diskSelection current)) →
  (renderHooks current h).2 = setReusePartitioning false.
Proof.
  intros (memoised & Hmemo & Hdeps & Hlt) Hchange.
  unfold renderHooks, useAvailableDevices, useReusePartitioningEffect.
  rewrite Hmemo.
  destruct (address (devices previous) =? address (devices current))%positive
    eqn:Hdev.
  - apply Pos.eqb_eq in Hdev. destruct Hchange as [Hne|Hne]; [done|].
    rewrite Hdeps. cbn. rewrite Pos.eqb_refl. cbn.
    apply Pos.eqb_neq in Hne. by rewrite Hne.
  - cbn. rewrite Hdeps.
    assert ((address memoised =? nextAddress h)%positive = false) as ->
      by (apply Pos.eqb_neq; lia).
    done.
Qed.

(** C8, as the code has it.  The claim that every change of the keys of
    [storageData.devices] resets [reusePartitioning] fails when the change
    is made in place: the dependencies of the effect are compared by
    identity, so a [devices] object that is the same object as at the last
    render, with one more key, does not run the effect, and the flag keeps
    the value true. *)
Lemma reusePartitioning_in_place_change_counterexample :
  let previous :=
    {| devices := MkRef 10 [("vda", ∅)];
       diskSelection := {| selectedDisks := MkRef 20 ["vda"]%string |} |} in
  let current :=
    {| devices := MkRef 10 [("vda", ∅); ("vdb", ∅)];
       diskSelection := {| selectedDisks := MkRef 20 ["vda"]%string |} |} in
  let w :=
    (setReusePartitioning true
       (worldAt {| encrypt := false; password := "" |} "mount-point-mapping" 1
          ["mount-point-mapping"]%string)).1 in
  objectKeys (content (devices previous))
  ≠ objectKeys (content (devices current))
  ∧ reusePartitioning (wizard w) = true
  ∧ reusePartitioning
      (wizard ((renderHooks current (rendered ([] ++ [previous]))).2 w).1)
    = true.
Proof.
  intros previous current w. split; [|split]; [|reflexivity|reflexivity].
  cbn. discriminate.
Qed.

(** C8, amended.  After any history of renders, when the keys of
    [storageData.devices] or the list [selectedDisks] differ between the
    last two renders, the changed object having been replaced by another
    one and not changed in place, the effect of the last render sets
    [reusePartitioning] to false whatever its value was. *)
Theorem reusePartitioning_reset_on_change
    (history : list StorageData) (previous current : StorageData) (w : World) :
  (address (devices previous) = address (devices current) →
   content (devices previous) = content (devices current)) →
  (address (selectedDisks (diskSelection previous))
   = address (selectedDisks (diskSelection current)) →
   content (selectedDisks (diskSelection previous))
   = content (selectedDisks (diskSelection current))) →
  objectKeys (content (devices previous))
  ≠ objectKeys (content (devices current))
  ∨ content (selectedDisks (diskSelection previous))
    ≠ content (selectedDisks (diskSelection current)) →
  reusePartitioning
    (wizard ((renderHooks current (rendered (history ++ [previous]))).2 w).1)
  = false.
Proof.
  intros Hdevices Hdisks Hchange.
  rewrite (renderHooks_effect_runs previous current); [done| |].
  - apply rendered_after.
  - destruct Hchange as [Hkeys|Hsel].
    + left. intros Heq. apply Hkeys. by rewrite (Hdevices Heq).
    + right. intros Heq. by apply Hsel, Hdisks.
Qed.

Lemma reusePartitioning_reset_on_change_witness :
  let previous :=
    {| devices := MkRef 10 [("vda", ∅)];
       diskSelection := {| selectedDisks := MkRef 20 ["vda"]%string |} |} in
  let current :=
    {| devices := MkRef 11 [("vda", ∅); ("vdb", ∅)];
       diskSelection := {| selectedDisks := MkRef 20 ["vda"]%string |} |} in
  let w :=
    (setReusePartitioning true
       (worldAt {| encrypt := false; password := "" |} "mount-point-mapping" 1
          ["mount-point-mapping"]%string)).1 in
  reusePartitioning (wizard w) = true
  ∧ reusePartitioning
      (wizard ((renderHooks current (rendered ([] ++ [previous]))).2 w).1)
    = false.
Proof.
  intros previous current w. split; [reflexivity|].
  apply (reusePartitioning_reset_on_change [] previous current w).
  - intros Haddr. discriminate Haddr.
  - intros _. reflexivity.
  - left. cbn. discriminate.
Defined.

(** * Further properties *)

(** ** Guards on arbitrary sequences *)

(** No search answers less than -1. *)
Lemma findIndex_lower_bound {A} (p : A → bool) (arr : list A) :
  -1 ≤ findIndex p arr.
Proof.
  destruct (findIndex_cases p arr) as [[-> _]|(k & x & -> & _)]; lia.
Qed.

(** X1. A target id that is absent from the flattened sequence can be
    jumped to from every current id, absent or not. *)
Theorem canJumpToStep_absent_target
    (flat : list string) (targetId currentId : string) :
  targetId ∉ flat → canJumpToStep flat targetId currentId = true.
Proof.
  intros Habsent. unfold canJumpToStep.
  apply findIndex_id_absent in Habsent as ->.
  apply Z.leb_le, findIndex_lower_bound.
Qed.

Lemma canJumpToStep_absent_target_witness :
  canJumpToStep (getFlattenedStepsIds (stepsOrder true "use-free-space"))
    "disk-configuration" "installation-language" = true.
Proof.
  apply (canJumpToStep_absent_target
           (getFlattenedStepsIds (stepsOrder true "use-free-space"))
           "disk-configuration" "installation-language").
  by_decision.
Defined.

(** X2. Whatever the sequence, duplicates included, [isFinishedStep]
    answers true for an id exactly when the sequence is empty or the id
    occurs at the last position and nowhere before it. *)
Theorem isFinishedStep_iff_first_at_end (flat : list string) (stepId : string) :
  isFinishedStep flat stepId = true
  ↔ flat = [] ∨ ∃ front, flat = front ++ [stepId] ∧ stepId ∉ front.
Proof.
  unfold isFinishedStep. rewrite Z.eqb_eq. split.
  - intros Hidx.
    destruct (findIndex_cases (λ s, (s =? stepId)%string) flat)
      as [[Hr _]|(k & x & Hr & Hk & Hp & Hbefore)].
    + left. destruct flat; [done|]. simpl in Hidx. lia.
    + right. apply String.eqb_eq in Hp as ->.
      assert (S k = length flat) as Hlen by lia.
      exists (take k flat). split.
      * rewrite <- (take_drop k flat) at 1. f_equal.
        rewrite (drop_S _ _ _ Hk), drop_ge by lia. done.
      * intros [j Hj]%list_elem_of_lookup.
        assert (j < k)%nat as Hlt.
        { apply lookup_lt_Some in Hj. rewrite length_take in Hj. lia. }
        rewrite lookup_take_lt in Hj by done.
        specialize (Hbefore j stepId Hlt Hj). simpl in Hbefore.
        by rewrite String.eqb_refl in Hbefore.
  - intros [->|(front & -> & Hfront)]; [done|].
    rewrite (findIndex_id_first (front ++ [stepId]) stepId (length front)).
    + rewrite length_app. simpl. lia.
    + by rewrite list_lookup_middle.
    + by rewrite take_app_length.
Qed.

(** ** The flattener on arbitrary trees *)

(** X3. Flattening is compositional: the flattened ids of two lists of
    steps put one after the other are the flattened ids of the first
    followed by those of the second. *)
Theorem getFlattenedStepsIds_app (steps1 steps2 : list Step) :
  getFlattenedStepsIds (steps1 ++ steps2)
  = getFlattenedStepsIds steps1 ++ getFlattenedStepsIds steps2.
Proof.
  rewrite !getFlattenedStepsIds_flattened_spec. unfold flattened_spec.
  apply bind_app.
Qed.

(** X4. The flattener reads nothing but the ids of the nodes of the list,
    whether they have [steps], and the ids and strict hidden flags of their
    direct children: two trees that agree on these flatten to the same
    ids, whatever their labels, components and deeper descendants. *)
Theorem getFlattenedStepsIds_skeleton (steps1 steps2 : list Step) :
  skeleton steps1 = skeleton steps2 →
  getFlattenedStepsIds steps1 = getFlattenedStepsIds steps2.
Proof.
  rewrite !getFlattenedStepsIds_flattened_spec. unfold flattened_spec, skeleton.
  revert steps2; induction steps1 as [|s1 rest1 IH]; intros [|s2 rest2] Heq;
    try discriminate; [done|].
  cbn [map] in Heq. injection Heq as Hid Hsteps Hrest.
  rewrite !bind_cons. f_equal; [|by apply IH].
  unfold contribution.
  destruct (Step.steps s1) as [children1|], (Step.steps s2) as [children2|];
    try discriminate; [|by rewrite Hid].
  injection Hsteps as Hchildren. clear -Hchildren.
  revert children2 Hchildren.
  induction children1 as [|c1 cs1 IHc]; intros [|c2 cs2] Heq;
    try discriminate; [done|].
  cbn [map] in Heq. injection Heq as Hid Hvis Hcs.
  rewrite !filter_cons.
  destruct (decide (Step.isHidden c1 ≠ JsBool true)) as [H1|H1],
           (decide (Step.isHidden c2 ≠ JsBool true)) as [H2|H2].
  - rewrite !fmap_cons, Hid. f_equal. by apply IHc.
  - apply notStrictlyTrue_spec in H1. rewrite Hvis in H1.
    by apply notStrictlyTrue_spec in H1.
  - apply notStrictlyTrue_spec in H2. rewrite <- Hvis in H2.
    by apply notStrictlyTrue_spec in H2.
  - by apply IHc.
Qed.

Lemma getFlattenedStepsIds_skeleton_witness :
  getFlattenedStepsIds
    [ Step.Make "disk-configuration" "Disk configuration" None
        (Some
           [ Step.Make "custom" "Custom" None
               (Some [ Step.Make "deep" "Deep" (Some DiskEncryption) None
                         JsUndefined JsUndefined ])
               (JsStr "yes") JsUndefined ])
        JsUndefined JsUndefined ]
  = getFlattenedStepsIds
      [ Step.Make "disk-configuration" "" (Some InstallationMethod)
          (Some [ Step.Make "custom" "" None None JsUndefined JsUndefined ])
          (JsBool true) JsUndefined ].
Proof.
  apply (getFlattenedStepsIds_skeleton
           [ Step.Make "disk-configuration" "Disk configuration" None
               (Some
                  [ Step.Make "custom" "Custom" None
                      (Some [ Step.Make "deep" "Deep" (Some DiskEncryption)
                                None JsUndefined JsUndefined ])
                      (JsStr "yes") JsUndefined ])
               JsUndefined JsUndefined ]
           [ Step.Make "disk-configuration" "" (Some InstallationMethod)
               (Some [ Step.Make "custom" "" None None JsUndefined JsUndefined ])
               (JsBool true) JsUndefined ]).
  reflexivity.
Defined.

(** ** The sequence of the wizard *)

(** The flattened ids of [stepsOrder], spelled out. *)
Lemma flattened_stepsOrder (isBootIso : bool) (scenarioId : string) :
  getFlattenedStepsIds (stepsOrder isBootIso scenarioId)
  = (if isBootIso then ["installation-language"] else [])
    ++ [ "installation-method";
         if (scenarioId =? "mount-point-mapping")%string
         then "mount-point-mapping" else "disk-encryption";
         "installation-review" ].
Proof.
  unfold stepsOrder.
  destruct isBootIso, (scenarioId =? "mount-point-mapping")%string; reflexivity.
Qed.

(** X5. Whatever the boot mode and the scenario, the wizard has the
    welcome step (in boot mode only), the installation method, one of the
    two disk-configuration sub-steps and the review, in this order and
    without duplicates; the group id "disk-configuration" is not among
    them. *)
Theorem flattenedStepsIds_of_wizard (isBootIso : bool) (w : World) :
  flattenedStepsIds isBootIso w
  = (if isBootIso then ["installation-language"] else [])
    ++ [ "installation-method";
         if (storageScenarioId (wizard w) =? "mount-point-mapping")%string
         then "mount-point-mapping" else "disk-encryption";
         "installation-review" ]
  ∧ NoDup (flattenedStepsIds isBootIso w)
  ∧ ("disk-configuration" ∉ flattenedStepsIds isBootIso w).
Proof.
  unfold flattenedStepsIds. rewrite flattened_stepsOrder.
  split; [done|].
  split;
    destruct isBootIso,
      (storageScenarioId (wizard w) =? "mount-point-mapping")%string;
    by_decision.
Qed.

(** X6. In the wizard [isFinishedStep] answers true for
    "installation-review" and for no other id, whatever the boot mode and
    the scenario. *)
Theorem isFinishedStep_of_wizard (isBootIso : bool) (w : World) (stepId : string) :
  isFinishedStep (flattenedStepsIds isBootIso w) stepId = true
  ↔ stepId = "installation-review".
Proof.
  unfold flattenedStepsIds. rewrite flattened_stepsOrder.
  unfold isFinishedStep, findIndex.
  destruct isBootIso,
    (storageScenarioId (wizard w) =? "mount-point-mapping")%string;
    cbn [app findIndexFrom length];
    repeat match goal with
           | |- context [(?s =? stepId)%string] =>
               destruct (String.eqb_spec s stepId) as [<-|?]
           end;
    cbn; split; (congruence || done).
Qed.

(** X7. Without a path the current step is the first entry of the
    flattened sequence; with a path it is its first segment, unless that
    is the empty string, which falls back to the first entry as well. *)
Theorem currentStepId_default (isBootIso : bool) (w : World)
    (segment : string) (rest : list string) :
  head (flattenedStepsIds isBootIso w) = Some (currentStepId isBootIso [])
  ∧ currentStepId isBootIso (segment :: rest)
    = (if (segment =? "")%string then currentStepId isBootIso [] else segment).
Proof.
  unfold flattenedStepsIds. rewrite flattened_stepsOrder.
  unfold currentStepId, firstOr. destruct isBootIso; split; reflexivity.
Qed.

(** ** Rendered steps *)

Lemma createStep_id (title : string) (flat : list string) (cur : string) (s : Step) :
  WizardStep.id (createStep title flat cur s) = Step.id s.
Proof. by destruct s. Qed.

Lemma createStep_steps (title : string) (flat : list string) (cur : string)
    (s : Step) :
  WizardStep.steps (createStep title flat cur s)
  = match Step.component s with
    | Some _ => None
    | None =>
        match Step.steps s with
        | Some subSteps => Some (mapVisible (createStep title flat cur) subSteps)
        | None => None
        end
    end.
Proof. by destruct s. Qed.

Lemma createStep_canJumpTo (title : string) (flat : list string) (cur : string)
    (s : Step) :
  WizardStep.canJumpTo (createStep title flat cur s)
  = canJumpToStep flat (Step.id s) cur.
Proof. by destruct s. Qed.

(** The rendered children of a group whose hidden flags are booleans
    carry the ids that the flattener keeps. *)
Lemma mapVisible_children_ids (title : string) (flat : list string) (cur : string)
    (children : list Step) :
  Forall (λ c, truthy (Step.isHidden c)
               = negb (notStrictlyTrue (Step.isHidden c))) children →
  WizardStep.id <$> mapVisible (createStep title flat cur) children
  = Step.id <$> filter (λ c, Step.isHidden c ≠ JsBool true) children.
Proof.
  induction 1 as [|c rest Hc Hrest IH]; [done|].
  cbn [mapVisible]. rewrite filter_cons, Hc.
  destruct (notStrictlyTrue (Step.isHidden c)) eqn:Hvis; cbn [negb].
  - rewrite decide_True by (by apply notStrictlyTrue_spec).
    rewrite !fmap_cons, createStep_id. f_equal. exact IH.
  - rewrite decide_False; [exact IH|].
    intros Hv%notStrictlyTrue_spec. congruence.
Qed.

(** X8. On a step tree in which no node of the list is hidden, groups
    have no component and the hidden flags of children are booleans (or
    absent), the steps that [createSteps] renders for navigation, a group
    standing for its rendered sub-steps, carry exactly the flattened ids,
    in the same order. *)
Theorem createSteps_agrees_with_flattened
    (title : string) (flat : list string) (cur : string) (steps : list Step) :
  agreeable steps →
  WizardStep.id <$> navigableSteps (createSteps title flat cur steps)
  = getFlattenedStepsIds steps.
Proof.
  rewrite getFlattenedStepsIds_flattened_spec.
  unfold agreeable, createSteps, navigableSteps, flattened_spec.
  induction 1 as [|s rest [Hvisible Hs] Hrest IH]; [done|].
  cbn [mapVisible]. rewrite Hvisible, !bind_cons, fmap_app, IH.
  f_equal. rewrite createStep_steps. unfold contribution.
  destruct (Step.steps s) as [children|].
  - destruct Hs as [-> Hchildren]. by apply mapVisible_children_ids.
  - destruct (Step.component s); cbn; by rewrite createStep_id.
Qed.

Lemma createSteps_agrees_with_flattened_witness :
  WizardStep.id
  <$> navigableSteps
        (createSteps "Anaconda"
           (getFlattenedStepsIds (stepsOrder true "mount-point-mapping"))
           "installation-method" (stepsOrder true "mount-point-mapping"))
  = getFlattenedStepsIds (stepsOrder true "mount-point-mapping").
Proof.
  apply (createSteps_agrees_with_flattened "Anaconda"
           (getFlattenedStepsIds (stepsOrder true "mount-point-mapping"))
           "installation-method" (stepsOrder true "mount-point-mapping")).
  unfold agreeable. cbn. repeat constructor.
Defined.
(** The steps rendered at the top level come from descriptors of the
    list that are not hidden. *)
Lemma elem_of_mapVisible {B} (f : Step → B) (l : list Step) (y : B) :
  y ∈ mapVisible f l ↔ ∃ s, s ∈ l ∧ truthy (Step.isHidden s) = false ∧ y = f s.
Proof.
  induction l as [|s rest IH]; cbn [mapVisible].
  - split; [by intros ?%elem_of_nil|by intros (s & ?%elem_of_nil & _)].
  - destruct (truthy (Step.isHidden s)) eqn:Hs.
    + rewrite IH. split.
      * intros (s' & Hin & Hvis & ->). exists s'. split; [by right|done].
      * intros (s' & [->|Hin]%elem_of_cons & Hvis & ->); [congruence|].
        by exists s'.
    + rewrite elem_of_cons, IH. split.
      * intros [->|(s' & Hin & Hvis & ->)].
        -- exists s. split; [by left|done].
        -- exists s'. split; [by right|done].
      * intros (s' & [->|Hin]%elem_of_cons & Hvis & ->); [by left|].
        right. by exists s'.
Qed.

(** X9. The rendered group "disk-configuration" can always be jumped to,
    whatever the current step, the boot mode and the scenario: its id is
    not in the flattened sequence, so its index is -1; and it is never the
    finished step. *)
Theorem disk_configuration_always_jumpable
    (isBootIso : bool) (title : string) (w : World) (rendered : WizardStep) :
  rendered ∈ steps isBootIso title w →
  WizardStep.id rendered = "disk-configuration" →
  WizardStep.canJumpTo rendered = true
  ∧ WizardStep.isFinishedStep rendered = false.
Proof.
  unfold steps, createSteps.
  intros (s & Hs & _ & ->)%elem_of_mapVisible Hid.
  rewrite createStep_id in Hid.
  assert ("disk-configuration" ∉ flattenedStepsIds isBootIso w) as Habsent.
  { unfold flattenedStepsIds. rewrite flattened_stepsOrder.
    destruct isBootIso,
      (storageScenarioId (wizard w) =? "mount-point-mapping")%string;
      by_decision. }
  split.
  - rewrite createStep_canJumpTo, Hid. unfold canJumpToStep.
    apply findIndex_id_absent in Habsent as ->.
    apply Z.leb_le, findIndex_lower_bound.
  - destruct s; cbn in *. subst. unfold isFinishedStep.
    apply findIndex_id_absent in Habsent as ->.
    apply Z.eqb_neq. unfold flattenedStepsIds. rewrite flattened_stepsOrder.
    destruct isBootIso; cbn; lia.
Qed.

Lemma disk_configuration_always_jumpable_witness :
  ∃ rendered,
    rendered
    ∈ steps false "Anaconda"
        (worldAt {| encrypt := false; password := "" |} "use-free-space" 0 [])
    ∧ WizardStep.id rendered = "disk-configuration"
    ∧ WizardStep.canJumpTo rendered = true
    ∧ WizardStep.isFinishedStep rendered = false.
Proof.
  eexists. split; [right; left|]. split; [reflexivity|].
  eapply (disk_configuration_always_jumpable false "Anaconda"
            (worldAt {| encrypt := false; password := "" |} "use-free-space" 0 [])).
  - right. left.
  - reflexivity.
Defined.
(** ** Step changes *)

(** X10. When the step that is left is not the review, or the new step is
    the progress view, [goToStep] navigates at once: it starts no
    operation, calls [cockpit.location.go] with the new id once, and
    leaves [isInProgress], the notification and the footer state alone. *)
Theorem goToStep_direct (currentStep : WizardStep) (prevStep : PrevStep) (w : World) :
  prevId prevStep ≠ JsStr "installation-review"
  ∨ WizardStep.id currentStep = "installation-progress" →
  ∃ w1,
    goToStep currentStep prevStep w = (w1, [])
    ∧ location w1 = [WizardStep.id currentStep]
    ∧ calls w1 = calls w ++ [LocationGo [WizardStep.id currentStep]]
    ∧ isInProgress (wizard w1) = isInProgress (wizard w)
    ∧ stepNotification (wizard w1) = stepNotification (wizard w)
    ∧ footer w1 = footer w
    ∧ activeStepIndex w1 = activeStepIndex w.
Proof.
  intros Hdirect. unfold goToStep.
  assert (bool_decide (prevId prevStep = JsStr "installation-review")
          && negb (WizardStep.id currentStep =? "installation-progress")%string
          = false) as ->.
  { destruct Hdirect as [Hprev|Hcur].
    - by rewrite bool_decide_eq_false_2.
    - rewrite Hcur, String.eqb_refl. cbn [negb]. apply andb_false_r. }
  destruct (bool_decide (prevId prevStep ≠ JsStr (WizardStep.id currentStep)));
    eexists; (split; [reflexivity|]); repeat split.
Qed.

Lemma goToStep_direct_witness :
  let review :=
    WizardStep.Make "Anaconda content" "Review and install"
      "installation-review" false false true (Some ReviewConfiguration) None in
  let diskEncryption :=
    WizardStep.Make "Anaconda content" "Disk encryption" "disk-encryption"
      false true false (Some DiskEncryption) None in
  let w :=
    worldAt {| encrypt := false; password := "" |} "use-free-space" 1
      ["disk-encryption"]%string in
  ∃ w1,
    goToStep review (leaving diskEncryption) w = (w1, [])
    ∧ location w1 = ["installation-review"]%string.
Proof.
  intros review diskEncryption w.
  assert (prevId (leaving diskEncryption) ≠ JsStr "installation-review")
    as Hne by discriminate.
  destruct (goToStep_direct review (leaving diskEncryption) w (or_introl Hne))
    as (w1 & Hgo & Hloc & _).
  exists w1. split; assumption.
Defined.

(** X11. In every branch [goToStep] leaves the validity of the form as it
    is when [prevStep.prevId] is the id of the new step, and resets it to
    false otherwise; it never sets it to true. *)
Theorem goToStep_isFormValid (currentStep : WizardStep) (prevStep : PrevStep)
    (w : World) :
  isFormValid (wizard (goToStep currentStep prevStep w).1)
  = (if bool_decide (prevId prevStep = JsStr (WizardStep.id currentStep))
     then isFormValid (wizard w) else false).
Proof.
  unfold goToStep.
  destruct (decide (prevId prevStep = JsStr (WizardStep.id currentStep)))
    as [Heq|Hne].
  - rewrite (bool_decide_eq_true_2 _ Heq).
    rewrite bool_decide_eq_false_2 by (by intros H).
    by destruct (bool_decide (prevId prevStep = JsStr "installation-review")
                 && negb (WizardStep.id currentStep =? "installation-progress")%string).
  - rewrite (bool_decide_eq_false_2 _ Hne).
    rewrite (bool_decide_eq_true_2 _ Hne).
    by destruct (bool_decide (prevId prevStep = JsStr "installation-review")
                 && negb (WizardStep.id currentStep =? "installation-progress")%string).
Qed.

(** ** The footer *)

(** The id of the active step of a context is the flattened id at the
    active index. *)
Lemma useWizardContext_active_id (isBootIso : bool) (title : string) (w : World)
    (ctx : WizardContext) :
  useWizardContext (steps isBootIso title w) goToStep w = Some ctx →
  flattenedStepsIds isBootIso w !! activeStepIndex w
  = Some (WizardStep.id (activeStep ctx)).
Proof.
  unfold useWizardContext. intros Hctx.
  rewrite <- (navigable_ids isBootIso title), list_lookup_fmap.
  destruct (navigableSteps (steps isBootIso title w) !! activeStepIndex w)
    as [active|]; [|discriminate].
  by injection Hctx as <-.
Qed.

(** What a rendered wizard tells about the world it was rendered in. *)
Lemma AnacondaWizard_Some (isBootIso : bool) (title : string)
    (partitioningPath : option string) (w : World) (view : FooterView) :
  AnacondaWizard isBootIso title partitioningPath w = Some view →
  isInstallationProgress (wizard w) = false
  ∧ isInProgress (wizard w) = false
  ∧ ∃ ctx,
      useWizardContext (steps isBootIso title w) goToStep w = Some ctx
      ∧ Footer isBootIso partitioningPath (wizard w) (footer w) ctx = Some view.
Proof.
  unfold AnacondaWizard.
  destruct (isInstallationProgress (wizard w)); [discriminate|].
  destruct (useWizardContext (steps isBootIso title w) goToStep w) as [ctx|];
    [|discriminate].
  intros Hview. split; [done|]. split; [|by exists ctx].
  unfold Footer in Hview. by destruct (isInProgress (wizard w)).
Qed.

Lemma AnacondaWizard_in_progress (isBootIso : bool) (title : string)
    (partitioningPath : option string) (w : World) :
  isInProgress (wizard w) = true →
  AnacondaWizard isBootIso title partitioningPath w = None.
Proof.
  intros Hprogress. unfold AnacondaWizard, Footer.
  destruct (isInstallationProgress (wizard w)); [done|].
  destruct (useWizardContext (steps isBootIso title w) goToStep w); [|done].
  by rewrite Hprogress.
Qed.

Lemma AnacondaWizard_rendered (isBootIso : bool) (title : string)
    (partitioningPath : option string) (w : World) (stepId : string) :
  isInstallationProgress (wizard w) = false →
  isInProgress (wizard w) = false →
  flattenedStepsIds isBootIso w !! activeStepIndex w = Some stepId →
  ∃ view, AnacondaWizard isBootIso title partitioningPath w = Some view.
Proof.
  intros Hinst Hprogress Hactive. unfold AnacondaWizard, Footer.
  destruct (useWizardContext_at isBootIso title w stepId Hactive)
    as (ctx & -> & _).
  rewrite Hinst, Hprogress. by eexists.
Qed.

(** X12. On the review step, with a valid form and no confirmation
    pending, Next does not advance: it sets [nextWaitsConfirmation],
    starts no operation and makes no call; the footer rendered next
    shows the confirmation dialog and has its Next button disabled, so a
    second click changes nothing. *)
Theorem next_on_review_waits_confirmation
    (isBootIso : bool) (partitioning : option string) (ctx : WizardContext)
    (w : World) (view : FooterView) :
  Footer isBootIso partitioning (wizard w) (footer w) ctx = Some view →
  WizardStep.id (activeStep ctx) = "installation-review" →
  isFormValid (wizard w) = true →
  nextWaitsConfirmation (footer w) = false →
  ∃ w1 view1,
    click "installation-next-btn" (actionList view) w = (w1, [])
    ∧ nextWaitsConfirmation (footer w1) = true
    ∧ activeStepIndex w1 = activeStepIndex w
    ∧ location w1 = location w
    ∧ calls w1 = calls w
    ∧ isInProgress (wizard w1) = false
    ∧ Footer isBootIso partitioning (wizard w1) (footer w1) ctx = Some view1
    ∧ reviewConfirmModal view1 = true
    ∧ click "installation-next-btn" (actionList view1) w1 = (w1, []).
Proof.
  intros Hview Hid Hvalid Hwait.
  destruct w as [[valid note progress inst enc sid reuse] [waits quit] i loc cs].
  cbn [wizard footer isFormValid nextWaitsConfirmation] in *. subst valid waits.
  unfold Footer in *. cbn [isInProgress] in *.
  destruct progress; [discriminate|]. injection Hview as <-.
  unfold click, onNext. cbn [actionList List.find buttonId isDisabled onClick].
  rewrite Hid.
  eexists _, _. split; [run_handler|].
  split; [reflexivity|]. split; [reflexivity|]. split; [reflexivity|].
  split; [reflexivity|]. split; [reflexivity|].
  split; [reflexivity|].
  split; [reflexivity|]. reflexivity.
Qed.

Lemma next_on_review_waits_confirmation_witness :
  let ctx :=
    {| activeStep :=
         WizardStep.Make "Anaconda content" "Review and install"
           "installation-review" false true true (Some ReviewConfiguration)
           None;
       goToNextStep := skip; goToPrevStep := skip |} in
  let w :=
    (setIsFormValid true
       (worldAt {| encrypt := false; password := "" |} "use-free-space" 2
          ["installation-review"]%string)).1 in
  ∃ view w1,
    Footer false None (wizard w) (footer w) ctx = Some view
    ∧ click "installation-next-btn" (actionList view) w = (w1, [])
    ∧ nextWaitsConfirmation (footer w1) = true
    ∧ activeStepIndex w1 = 2%nat.
Proof.
  intros ctx w.
  destruct (next_on_review_waits_confirmation false None ctx w _
              eq_refl eq_refl eq_refl eq_refl)
    as (w1 & view1 & Hclick & Hwaits & Hidx & _).
  eexists _, w1. split; [reflexivity|]. repeat split; assumption.
Defined.

(** The entry before the review in the flattened sequence of the wizard
    is one of the two storage steps. *)
Lemma flattened_before_review (isBootIso : bool) (scenarioId : string) (i : nat) :
  getFlattenedStepsIds (stepsOrder isBootIso scenarioId) !! i
  = Some "installation-review" →
  ∃ j stepId,
    i = S j
    ∧ getFlattenedStepsIds (stepsOrder isBootIso scenarioId) !! j = Some stepId
    ∧ (stepId = "mount-point-mapping" ∨ stepId = "disk-encryption").
Proof.
  rewrite flattened_stepsOrder.
  destruct isBootIso, (scenarioId =? "mount-point-mapping")%string;
    destruct i as [|[|[|[|i]]]]; cbn; intros [=];
    eexists _, _; (split; [reflexivity|]); cbn; split; (reflexivity || auto).
Qed.

(** X13. Back is disabled exactly on the first step of the flattened
    sequence, in both boot modes. *)
Theorem isFirstScreen_iff_first (isBootIso : bool) (title : string) (w : World)
    (ctx : WizardContext) :
  useWizardContext (steps isBootIso title w) goToStep w = Some ctx →
  (isFirstScreen isBootIso ctx = true ↔ activeStepIndex w = 0%nat).
Proof.
  intros Hactive%useWizardContext_active_id. unfold isFirstScreen.
  unfold flattenedStepsIds in Hactive. rewrite flattened_stepsOrder in Hactive.
  destruct (WizardStep.id (activeStep ctx)) as [|c rest] eqn:Hid;
    destruct isBootIso,
      (storageScenarioId (wizard w) =? "mount-point-mapping")%string;
    destruct (activeStepIndex w) as [|[|[|[|i]]]];
    cbn in Hactive; try discriminate Hactive;
    injection Hactive as <- <-; cbn; split; (done || lia).
Qed.

Lemma isFirstScreen_iff_first_witness :
  let w :=
    worldAt {| encrypt := false; password := "" |} "use-free-space" 0 [] in
  ∃ ctx,
    useWizardContext (steps false "Anaconda" w) goToStep w = Some ctx
    ∧ isFirstScreen false ctx = true.
Proof.
  intros w. eexists. split; [reflexivity|].
  apply (isFirstScreen_iff_first false "Anaconda" w _ eq_refl). reflexivity.
Defined.

(** X14. In the rendered wizard, a click on Back on the review step
    starts no [resetPartitioning]: the wizard library hands [goToStep] the
    step object that is left, without a [prevId], so the wizard navigates
    at once to the storage step before the review and [isInProgress]
    stays false.  The click also calls [onCritFail], whose call is the
    second argument of [onBack], although nothing has failed. *)
Theorem back_click_on_review
    (isBootIso : bool) (title : string) (partitioningPath : option string)
    (w : World) (view : FooterView) :
  AnacondaWizard isBootIso title partitioningPath w = Some view →
  flattenedStepsIds isBootIso w !! activeStepIndex w
  = Some "installation-review" →
  ∃ ctx w1 newId,
    useWizardContext (steps isBootIso title w) goToStep w = Some ctx
    ∧ click "installation-back-btn" (actionList view) w = (w1, [])
    ∧ isInProgress (wizard w1) = false
    ∧ S (activeStepIndex w1) = activeStepIndex w
    ∧ flattenedStepsIds isBootIso w !! activeStepIndex w1 = Some newId
    ∧ (newId = "mount-point-mapping" ∨ newId = "disk-encryption")
    ∧ location w1 = [newId]
    ∧ calls w1
      = calls w
        ++ [ OnCritFail
               ("Error was hit when going back from "
                ++ WizardStep.name (activeStep ctx) ++ ".")%string;
             LocationGo [newId] ].
Proof.
  intros Hview Hreview.
  destruct (AnacondaWizard_Some _ _ _ _ _ Hview)
    as (_ & Hprogress & ctx & Hctx & Hfooter).
  pose proof (useWizardContext_active_id _ _ _ _ Hctx) as Hactive.
  rewrite Hreview in Hactive. injection Hactive as Hid.
  destruct (flattened_before_review _ _ _ Hreview)
    as (j & newId & Hi & Hj & HnewId).
  fold (flattenedStepsIds isBootIso w) in Hj.
  assert (∃ newStep,
            navigableSteps (steps isBootIso title w) !! j = Some newStep
            ∧ WizardStep.id newStep = newId) as (newStep & Hnew & HnewStep).
  { rewrite <- (navigable_ids isBootIso title), list_lookup_fmap in Hj.
    destruct (navigableSteps (steps isBootIso title w) !! j) as [newStep|];
      [|discriminate].
    exists newStep. split; [done|]. by injection Hj. }
  pose proof Hctx as Hctx0.
  unfold useWizardContext in Hctx. rewrite Hi in Hctx.
  destruct (navigableSteps (steps isBootIso title w) !! S j) as [active|];
    [|discriminate].
  rewrite Hnew in Hctx. injection Hctx as <-.
  cbn [activeStep] in *.
  unfold Footer in Hfooter. rewrite Hprogress in Hfooter.
  injection Hfooter as <-.
  unfold click, isFirstScreen, onBack, goToStep, leaving.
  cbn [actionList List.find buttonId isDisabled onClick activeStep goToPrevStep
       prevId prevName].
  rewrite format_going_back, <- Hid, HnewStep.
  eexists _, _, newId. split; [exact Hctx0|].
  destruct HnewId as [-> | ->].
  all: split; [run_handler|].
  all: split; [exact Hprogress|]; split; [by rewrite Hi|]; split; [exact Hj|].
  all: split; [auto|]; split; [reflexivity|].
  all: match goal with
       | |- _ = ?cs ++ [?c1; ?c2] =>
           transitivity (push (push cs c1) c2);
           [reflexivity|unfold push; by rewrite <- app_assoc]
       end.
Qed.

Lemma back_click_on_review_witness :
  let w :=
    worldAt {| encrypt := false; password := "" |} "use-free-space" 2
      ["installation-review"]%string in
  ∃ view w1,
    AnacondaWizard false "Anaconda" None w = Some view
    ∧ click "installation-back-btn" (actionList view) w = (w1, [])
    ∧ isInProgress (wizard w1) = false
    ∧ location w1 = ["disk-encryption"]%string.
Proof.
  intros w.
  destruct (back_click_on_review false "Anaconda" None w _ eq_refl eq_refl)
    as (ctx & w1 & newId & _ & Hclick & Hprogress & Hidx & Hflat & _ & Hloc & _).
  injection Hidx as Hidx. rewrite Hidx in Hflat. injection Hflat as <-.
  eexists _, w1. split; [reflexivity|]. repeat split; assumption.
Defined.

(** X15. In the rendered wizard, Next on a storage step with a valid form
    hides the footer for as long as [applyStorage] is in flight, so no
    second operation can be started from it; the click itself makes no
    call and leaves an earlier notification in place.  When the operation
    fails, the error is logged, the footer is rendered again and the
    active step is the same. *)
Theorem storage_next_single_flight
    (isBootIso : bool) (title : string) (partitioningPath : option string)
    (w : World) (view : FooterView) (stepId : string) :
  AnacondaWizard isBootIso title partitioningPath w = Some view →
  flattenedStepsIds isBootIso w !! activeStepIndex w = Some stepId →
  stepId = "disk-encryption" ∨ stepId = "mount-point-mapping" →
  isFormValid (wizard w) = true →
  nextWaitsConfirmation (footer w) = false →
  ∃ w1 args,
    click "installation-next-btn" (actionList view) w
    = (w1, [ReqApplyStorage args])
    ∧ AnacondaWizard isBootIso title partitioningPath w1 = None
    ∧ stepNotification (wizard w1) = stepNotification (wizard w)
    ∧ calls w1 = calls w
    ∧ ∀ ex, ∃ w2 view2,
        complete (ReqApplyStorage args) (Rejected ex) w1 = (w2, [])
        ∧ AnacondaWizard isBootIso title partitioningPath w2 = Some view2
        ∧ activeStepIndex w2 = activeStepIndex w
        ∧ calls w2 = calls w ++ [ConsoleError ex].
Proof.
  intros Hview Hactive HstepId Hvalid Hwait.
  destruct (AnacondaWizard_Some _ _ _ _ _ Hview)
    as (Hinst & Hprogress & ctx & Hctx & Hfooter).
  pose proof (useWizardContext_active_id _ _ _ _ Hctx) as Hid.
  rewrite Hactive in Hid. injection Hid as Hid.
  unfold Footer in Hfooter. rewrite Hprogress in Hfooter.
  injection Hfooter as <-.
  unfold click, onNext.
  cbn [actionList List.find buttonId isDisabled onClick].
  rewrite <- Hid, Hvalid, Hwait.
  destruct HstepId as [-> | ->].
  all: eexists _, _; split; [run_handler|].
  all: split; [by apply AnacondaWizard_in_progress|].
  all: split; [reflexivity|]; split; [reflexivity|].
  all: intros ex.
  all: match goal with
       | |- ∃ w2 view2, ?run = _ ∧ _ =>
           destruct (AnacondaWizard_rendered isBootIso title partitioningPath
                       run.1 _ Hinst eq_refl Hactive) as [view2 Hview2]
       end.
  all: eexists _, view2; split; [run_handler|].
  all: split; [exact Hview2|]; split; reflexivity.
Qed.

Lemma storage_next_single_flight_witness :
  let w :=
    (setIsFormValid true
       (worldAt {| encrypt := false; password := "" |} "use-free-space" 1
          ["disk-encryption"]%string)).1 in
  ∃ view w1 args,
    AnacondaWizard false "Anaconda" None w = Some view
    ∧ click "installation-next-btn" (actionList view) w
      = (w1, [ReqApplyStorage args])
    ∧ AnacondaWizard false "Anaconda" None w1 = None.
Proof.
  intros w.
  destruct (storage_next_single_flight false "Anaconda" None w _
              "disk-encryption" eq_refl eq_refl (or_introl eq_refl)
              eq_refl eq_refl)
    as (w1 & args & Hclick & Hnone & _).
  eexists _, w1, args. split; [reflexivity|]. split; assumption.
Defined.

(** ** The hooks *)

(** X16. A render whose [devices] object and [selectedDisks] array are
    the same objects as at the last render does not run the effect: the
    world, [reusePartitioning] included, is left as it is. *)
Theorem reusePartitioning_kept_on_same_objects
    (history : list StorageData) (previous current : StorageData) (w : World) :
  address (devices previous) = address (devices current) →
  address (selectedDisks (diskSelection previous))
  = address (selectedDisks (diskSelection current)) →
  (renderHooks current (rendered (history ++ [previous]))).2 w = (w, []).
Proof.
  intros Hdevices Hdisks.
  destruct (rendered_after history previous) as (memoised & Hmemo & Hdeps & _).
  unfold renderHooks, useAvailableDevices, useReusePartitioningEffect.
  rewrite Hmemo, Hdevices, Pos.eqb_refl, Hdeps. cbn.
  by rewrite Hdisks, !Pos.eqb_refl.
Qed.

Lemma reusePartitioning_kept_on_same_objects_witness :
  let storageData :=
    {| devices := MkRef 10 [("vda", ∅)];
       diskSelection := {| selectedDisks := MkRef 20 ["vda"]%string |} |} in
  let w :=
    (setReusePartitioning true
       (worldAt {| encrypt := false; password := "" |} "mount-point-mapping" 1
          ["mount-point-mapping"]%string)).1 in
  reusePartitioning
    (wizard ((renderHooks storageData (rendered ([] ++ [storageData]))).2 w).1)
  = true.
Proof.
  intros storageData w.
  by rewrite (reusePartitioning_kept_on_same_objects [] storageData storageData
                w eq_refl eq_refl).
Defined.

(** X17. A render whose [devices] object or [selectedDisks] array is
    another object than at the last render sets [reusePartitioning] to
    false, whatever the contents of the two objects: a re-scan that finds
    the same devices resets it too.  The first render resets it as
    well. *)
Theorem reusePartitioning_reset_on_replacement
    (history : list StorageData) (previous current : StorageData) (w : World) :
  (address (devices previous) ≠ address (devices current)
   ∨ address (selectedDisks (diskSelection previous))
     ≠ address (selectedDisks (diskSelection current)) →
   reusePartitioning
     (wizard ((renderHooks current (rendered (history ++ [previous]))).2 w).1)
   = false)
  ∧ reusePartitioning (wizard ((renderHooks current mount).2 w).1) = false.
Proof.
  split; [|reflexivity].
  intros Hreplaced.
  rewrite (renderHooks_effect_runs previous current); [done| |done].
  apply rendered_after.
Qed.

Lemma reusePartitioning_reset_on_replacement_witness :
  let previous :=
    {| devices := MkRef 10 [("vda", ∅)];
       diskSelection := {| selectedDisks := MkRef 20 ["vda"]%string |} |} in
  let current :=
    {| devices := MkRef 11 [("vda", ∅)];
       diskSelection := {| selectedDisks := MkRef 20 ["vda"]%string |} |} in
  let w :=
    (setReusePartitioning true
       (worldAt {| encrypt := false; password := "" |} "mount-point-mapping" 1
          ["mount-point-mapping"]%string)).1 in
  reusePartitioning
    (wizard ((renderHooks current (rendered ([] ++ [previous]))).2 w).1)
  = false.
Proof.
  intros previous current w.
  destruct (reusePartitioning_reset_on_replacement [] previous current w)
    as [Hreplaced _].
  apply Hreplaced. left. discriminate.
Defined.

(** ** The scenario id across reloads *)

(** X18. [componentProps.setStorageScenarioId] writes the id to the state
    and to the session storage, leaving the other keys alone; a wizard
    mounted afterwards starts from that id, unless the id is the empty
    string, which falls back to the default scenario like a missing key. *)
Theorem storageScenarioId_round_trip
    (defaultScenarioId scenarioId : string) (storage : SessionStorage)
    (w : World) :
  let '(storage', handler) :=
    componentProps_setStorageScenarioId scenarioId storage in
  storageScenarioId (wizard (handler w).1) = scenarioId
  ∧ initialStorageScenarioId defaultScenarioId storage'
    = (if (scenarioId =? "")%string then defaultScenarioId else scenarioId)
  ∧ (∀ key, key ≠ "storage-scenario-id" →
            getItem key storage' = getItem key storage)
  ∧ (getItem "storage-scenario-id" storage = None →
     initialStorageScenarioId defaultScenarioId storage = defaultScenarioId).
Proof.
  unfold componentProps_setStorageScenarioId, initialStorageScenarioId,
    getItem, setItem.
  split; [reflexivity|]. split; [by rewrite lookup_insert_eq|]. split.
  - intros key Hkey. by rewrite lookup_insert_ne.
  - by intros ->.
Qed.

Lemma storageScenarioId_round_trip_witness :
  initialStorageScenarioId "erase-all"
    (componentProps_setStorageScenarioId "mount-point-mapping" ∅).1
  = "mount-point-mapping"
  ∧ initialStorageScenarioId "erase-all" ∅ = "erase-all".
Proof.
  pose proof (storageScenarioId_round_trip "erase-all" "mount-point-mapping" ∅
                (worldAt {| encrypt := false; password := "" |} "erase-all" 0 []))
    as Hround.
  cbn [componentProps_setStorageScenarioId] in Hround.
  destruct Hround as (_ & Hinit & _ & _).
  split; [exact Hinit|].
  pose proof (storageScenarioId_round_trip "erase-all" "" ∅
                (worldAt {| encrypt := false; password := "" |} "erase-all" 0 []))
    as Hempty.
  cbn [componentProps_setStorageScenarioId] in Hempty.
  destruct Hempty as (_ & _ & _ & Hmissing). by apply Hmissing.
Defined.

(** ** The selected language *)

Section LanguageProperties.
Context {Locale : Type} (localeId : Locale → string).




End LanguageProperties.

